(** * Dune Sea Diagnostics: the scheduling server, embedded

    A shallow embedding of the HTTP server of the repository (the
    schedule, availability, inventory and gallery endpoints, with the
    helpers [normalizeAvailability], [normalizeAppt] and [hasStart]) and
    of the client routine [blockSlotServer] of [app.js], followed by the
    properties the specification states about them.

    JavaScript values that arrive as JSON are modelled by the inductive
    type [value]; the coercions the handlers apply to them ([String],
    [Number], truthiness, [??], [?.]) are written out.  A coercion that
    throws a [TypeError] in JavaScript returns [None] here, and so does
    every handler that runs it: nothing in the server catches it. *)

From Stdlib Require Import ZArith QArith Qminmax Lqa Lia Ascii.
From stdpp Require Import base option list strings pretty gmap sorting.

Set Warnings "-register-all".
Local Open Scope stdpp_scope.

(** ** JavaScript numbers and values *)

(** A JavaScript number: not-a-number, the two infinities, or a finite
    value.  Finite doubles are embedded as the rationals they denote; the
    server compares them, takes minima and maxima and adds one to a value
    between 0 and 23, nothing else. *)
Inductive number : Type :=
  | NaN
  | NegInf
  | PosInf
  | Fin (q : Q).

(** What [JSON.parse] produces, plus [undefined] (a missing property). *)
Inductive value : Type :=
  | VUndef
  | VNull
  | VBool (b : bool)
  | VNum (n : number)
  | VStr (s : string)
  | VArr (items : list value)
  | VObj (props : list (string * value)).

(** The functions of the JavaScript runtime that the server calls and that
    this development does not fix: [Date.parse] ([None] stands for [NaN],
    [Some t] for the time value [t] in milliseconds), the decimal rendering
    of a finite number, and the conversion of a string to a number. *)
Class Host : Type := {
  Date_parse : string -> option Z;
  Number_toString : Q -> string;
  StringToNumber : string -> number
}.

(** What one request draws from the environment: the result of [makeId()]
    (a random identifier), of [nowStamp()] (the clock), and of
    [saveUploadedImage] on its [dataUrl], [filenameHint], [id] and [prefix]
    (it decodes the upload, writes it under the upload directory and names
    the file after the clock; [None] when a conversion in it throws). *)
Record env : Type := {
  makeId : string;
  nowStamp : string;
  saveUploadedImage : value -> value -> string -> value -> option string
}.

Definition is_nonempty (s : string) : bool :=
  match s with EmptyString => false | String _ _ => true end.

(** ToBoolean. *)
Definition truthy (v : value) : bool :=
  match v with
  | VUndef | VNull => false
  | VBool b => b
  | VNum NaN => false
  | VNum (Fin q) => negb (Qeq_bool q 0)
  | VNum _ => true
  | VStr s => is_nonempty s
  | VArr _ | VObj _ => true
  end.

(** [x || y] *)
Definition js_or (x y : value) : value := if truthy x then x else y.

(** [x ?? y] *)
Definition js_nullish (x y : value) : value :=
  match x with VUndef | VNull => y | _ => x end.

(** [typeof v === "object"] *)
Definition is_object (v : value) : bool :=
  match v with VNull | VArr _ | VObj _ => true | _ => false end.

Fixpoint assoc (k : string) (ps : list (string * value)) : value :=
  match ps with
  | [] => VUndef
  | (k', v) :: ps' => if String.eqb k k' then v else assoc k ps'
  end.

(** The own enumerable properties of a value: those of an object, and the
    indexed elements of an array.  Property names within one object are
    distinct. *)
Definition entries (v : value) : list (string * value) :=
  match v with
  | VObj ps => ps
  | VArr l => imap (fun i x => (pretty i, x)) l
  | _ => []
  end.

(** [Object.keys(v)] *)
Definition keys (v : value) : list string := (entries v).*1.

(** [v?.k] and [v[k]] for the property names the server reads: none of
    them is inherited from a prototype, so the result is the own property
    or [undefined]. *)
Definition get (v : value) (k : string) : value := assoc k (entries v).

Definition number_toString `{Host} (n : number) : string :=
  match n with
  | NaN => "NaN"
  | PosInf => "Infinity"
  | NegInf => "-Infinity"
  | Fin q => Number_toString q
  end.

Fixpoint join (sep : string) (l : list string) : string :=
  match l with
  | [] => ""
  | [s] => s
  | s :: l' => s +:+ sep +:+ join sep l'
  end.

Definition has_key (k : string) (ps : list (string * value)) : bool :=
  existsb (fun p => String.eqb k p.1) ps.

(** [String(v)].  An array is joined with commas, [null] elements giving
    the empty string.  A plain object gives ["[object Object]"] unless it
    has an own property [toString]: a JSON member is never callable, the
    inherited [valueOf] returns the object, and the conversion throws. *)
Fixpoint to_String `{Host} (v : value) : option string :=
  match v with
  | VUndef => Some "undefined"
  | VNull => Some "null"
  | VBool true => Some "true"
  | VBool false => Some "false"
  | VNum n => Some (number_toString n)
  | VStr s => Some s
  | VArr l =>
      join "," <$>
        (fix elems (l : list value) : option (list string) :=
           match l with
           | [] => Some []
           | x :: l' =>
               s ← match x with
                   | VUndef | VNull => Some ""
                   | _ => to_String x
                   end;
               r ← elems l';
               Some (s :: r)
           end) l
  | VObj ps => if has_key "toString" ps then None else Some "[object Object]"
  end.

(** [Number(v)] *)
Definition to_Number `{Host} (v : value) : option number :=
  match v with
  | VUndef => Some NaN
  | VNull => Some (Fin 0)
  | VBool true => Some (Fin 1)
  | VBool false => Some (Fin 0)
  | VNum n => Some n
  | VStr s => Some (StringToNumber s)
  | VArr _ => StringToNumber <$> to_String v
  | VObj ps => if has_key "toString" ps then None else Some NaN
  end.

(** [Math.min] and [Math.max] of two numbers: [NaN] if either is. *)
Definition math_min (a b : number) : number :=
  match a, b with
  | NaN, _ | _, NaN => NaN
  | NegInf, _ | _, NegInf => NegInf
  | PosInf, x | x, PosInf => x
  | Fin p, Fin q => if Qle_bool p q then Fin p else Fin q
  end.

Definition math_max (a b : number) : number :=
  match a, b with
  | NaN, _ | _, NaN => NaN
  | PosInf, _ | _, PosInf => PosInf
  | NegInf, x | x, NegInf => x
  | Fin p, Fin q => if Qle_bool p q then Fin q else Fin p
  end.

(** [a + 1], as the sum of rational numbers.  The source adds in double
    arithmetic: the two agree when the sum is a double, so on every [a]
    without a fractional part that the clamps let through, on [NaN] and on
    the infinities.  What is proved below of a finite result of [plus_one]
    is stated for such [a] ([no_fraction]). *)
Definition plus_one (a : number) : number :=
  match a with
  | Fin q => Fin (q + 1)
  | other => other
  end.

(** ** Appointments and the schedule *)

(** The object [normalizeAppt] builds; the two schedule arrays hold such
    objects. *)
Record appt : Type := {
  appt_id : string;
  appt_startISO : string;
  appt_slots : number;
  appt_name : string;
  appt_phone : string;
  appt_email : string;
  appt_serviceType : string;
  appt_appliance : string;
  appt_notes : string;
  appt_status : string;
  appt_createdISO : string
}.

(** [{ ...a, status }] *)
Definition with_status (a : appt) (status : string) : appt :=
  {| appt_id := appt_id a;
     appt_startISO := appt_startISO a;
     appt_slots := appt_slots a;
     appt_name := appt_name a;
     appt_phone := appt_phone a;
     appt_email := appt_email a;
     appt_serviceType := appt_serviceType a;
     appt_appliance := appt_appliance a;
     appt_notes := appt_notes a;
     appt_status := status;
     appt_createdISO := appt_createdISO a |}.

Definition normalizeAppt `{Host} (e : env) (a : value) (status : string)
  : option appt :=
  startISO ← to_String (js_or (get a "startISO") (VStr ""));
  slots ← to_Number (js_or (get a "slots") (VNum (Fin 1)));
  id ← to_String (js_or (get a "id") (VStr (makeId e)));
  name ← to_String (js_or (get a "name") (VStr ""));
  phone ← to_String (js_or (get a "phone") (VStr ""));
  email ← to_String (js_or (get a "email") (VStr ""));
  serviceType ← to_String (js_or (get a "serviceType") (VStr ""));
  appliance ← to_String (js_or (get a "appliance") (VStr ""));
  notes ← to_String (js_or (get a "notes") (VStr ""));
  createdISO ← to_String (js_or (get a "createdISO") (VStr (nowStamp e)));
  Some {| appt_id := id;
          appt_startISO := startISO;
          appt_slots := slots;
          appt_name := name;
          appt_phone := phone;
          appt_email := email;
          appt_serviceType := serviceType;
          appt_appliance := appliance;
          appt_notes := notes;
          appt_status := status;
          appt_createdISO := createdISO |}.

(** [String(s || "")] for a string [s]. *)
Definition str_or_empty (s : string) : string :=
  if is_nonempty s then s else "".

Definition hasStart `{Host} (list : list appt) (startISO : string) : bool :=
  match Date_parse (str_or_empty startISO) with
  | None => false
  | Some target =>
      existsb
        (fun x =>
           match Date_parse (str_or_empty (appt_startISO x)) with
           | None => false
           | Some t => Z.eqb t target
           end)
        list
  end.

(** ** Availability *)

(** One entry [{enabled, start, end}] of the weekly template. *)
Record dayconf : Type := {
  conf_enabled : bool;
  conf_start : number;
  conf_end : number
}.

(** [{ weekly: { 0:{...}, ... 6:{...} }, blocks: { "YYYY-MM-DD": [...] } }] *)
Record availability : Type := {
  weekly : gmap string dayconf;
  blocks : gmap string (list string)
}.

Definition DEFAULT_conf (enabled : bool) : value :=
  VObj [("enabled", VBool enabled);
        ("start", VNum (Fin 8));
        ("end", VNum (Fin 18))].

Definition DEFAULT_AVAILABILITY_weekly : value :=
  VObj [("0", DEFAULT_conf false);
        ("1", DEFAULT_conf true);
        ("2", DEFAULT_conf true);
        ("3", DEFAULT_conf true);
        ("4", DEFAULT_conf true);
        ("5", DEFAULT_conf true);
        ("6", DEFAULT_conf false)].

Definition DEFAULT_dayconf (enabled : bool) : dayconf :=
  {| conf_enabled := enabled; conf_start := Fin 8; conf_end := Fin 18 |}.

Definition DEFAULT_AVAILABILITY : availability :=
  {| weekly :=
       list_to_map
         [("0", DEFAULT_dayconf false);
          ("1", DEFAULT_dayconf true);
          ("2", DEFAULT_dayconf true);
          ("3", DEFAULT_dayconf true);
          ("4", DEFAULT_dayconf true);
          ("5", DEFAULT_dayconf true);
          ("6", DEFAULT_dayconf false)];
     blocks := ∅ |}.

(** The body of the loop over [dow] in [normalizeAvailability]. *)
Definition normalize_day `{Host} (w : value) (dow : nat) : option dayconf :=
  let dflt := get DEFAULT_AVAILABILITY_weekly (pretty dow) in
  let conf := js_nullish (get w (pretty dow))
                (js_nullish (get w (pretty dow)) dflt) in
  let enabled := truthy (get conf "enabled") in
  s ← to_Number (js_nullish (get conf "start") (get dflt "start"));
  let start := math_max (Fin 0) (math_min (Fin 23) s) in
  e ← to_Number (js_nullish (get conf "end") (get dflt "end"));
  let endRaw := math_max (Fin 1) (math_min (Fin 24) e) in
  let end_ := math_max endRaw (plus_one start) in
  Some {| conf_enabled := enabled; conf_start := start; conf_end := end_ |}.

Fixpoint normalize_weekly `{Host} (w : value) (dows : list nat)
    (out : gmap string dayconf) : option (gmap string dayconf) :=
  match dows with
  | [] => Some out
  | dow :: rest =>
      c ← normalize_day w dow;
      normalize_weekly w rest (<[pretty dow := c]> out)
  end.

(** [Array.from(new Set(arr))]: the first occurrence of each element, in
    order. *)
Fixpoint uniq (arr : list string) : list string :=
  match arr with
  | [] => []
  | x :: rest => x :: filter (fun y => y ≠ x) (uniq rest)
  end.

(** [.sort()] on strings: ascending by code units. *)
Definition sort_strings (l : list string) : list string :=
  merge_sort String.le l.

(** [Array.from(new Set(arr)).filter(Boolean).sort()] *)
Definition uniq_sorted (arr : list string) : list string :=
  sort_strings (filter (fun s => is_nonempty s = true) (uniq arr)).

(** The body of the loop over [Object.keys(b)]. *)
Definition normalize_block `{Host} (bk : value) : option (list string) :=
  arr ← match bk with
        | VArr l => mapM to_String l
        | _ => Some []
        end;
  Some (uniq_sorted arr).

(** [out.blocks[String(k)] = uniq].  The name ["__proto__"] is the one
    exception to a plain store: assigning to it sets the prototype of
    [out.blocks] and creates no property. *)
Definition store_block (k : string) (u : list string)
    (out : gmap string (list string)) : gmap string (list string) :=
  if String.eqb k "__proto__" then out else <[k := u]> out.

Fixpoint normalize_blocks `{Host} (b : value) (ks : list string)
    (out : gmap string (list string)) : option (gmap string (list string)) :=
  match ks with
  | [] => Some out
  | k :: rest =>
      u ← normalize_block (get b k);
      normalize_blocks b rest
        (match u with [] => out | _ :: _ => store_block k u out end)
  end.

Definition normalizeAvailability `{Host} (input : value) : option availability :=
  let w := if truthy (get input "weekly") && is_object (get input "weekly")
           then get input "weekly" else DEFAULT_AVAILABILITY_weekly in
  wk ← normalize_weekly w (seq 0 7) ∅;
  let b := if truthy (get input "blocks") && is_object (get input "blocks")
           then get input "blocks" else VObj [] in
  bl ← normalize_blocks b (keys b) ∅;
  Some {| weekly := wk; blocks := bl |}.

(** ** Inventory and gallery *)

Record item : Type := {
  item_id : string;
  item_title : string;
  item_model : string;
  item_buyPrice : option number;
  item_rentPrice : option number;
  item_status : string;
  item_note : string;
  item_imagePath : string
}.

Record photo : Type := {
  photo_id : string;
  photo_imagePath : string;
  photo_caption : string;
  photo_createdISO : string
}.

Definition DEFAULT_IMAGE_PATH : string := "/uploads/default.png".

(** White space and line terminators among the code units below 256. *)
Definition is_space (c : ascii) : bool :=
  let n := nat_of_ascii c in
  bool_decide (n ∈ [9; 10; 11; 12; 13; 32; 160]%nat).

Fixpoint trim_start (s : string) : string :=
  match s with
  | EmptyString => EmptyString
  | String c s' => if is_space c then trim_start s' else s
  end.

Fixpoint trim_end (s : string) : string :=
  match s with
  | EmptyString => EmptyString
  | String c s' =>
      match trim_end s' with
      | EmptyString => if is_space c then EmptyString else String c EmptyString
      | r => String c r
      end
  end.

(** [s.trim()] *)
Definition trim (s : string) : string := trim_end (trim_start s).

(** [(v === "" || v == null) ? null : Number(v)] *)
Definition price `{Host} (v : value) : option (option number) :=
  match v with
  | VUndef | VNull | VStr EmptyString => Some None
  | _ => Some <$> to_Number v
  end.

Definition normalizeInventoryItem `{Host} (e : env) (input : value)
  : option item :=
  id ← to_String (js_or (get input "id") (VStr (makeId e)));
  title ← to_String (js_or (get input "title") (VStr ""));
  model ← to_String (js_or (get input "model") (VStr ""));
  buyPrice ← price (get input "buyPrice");
  rentPrice ← price (get input "rentPrice");
  status ← to_String (js_or (get input "status") (VStr "unavailable"));
  note ← to_String (js_or (get input "note") (VStr ""));
  imagePath ← to_String (js_or (get input "imagePath") (VStr ""));
  let imagePath1 := if is_nonempty (trim imagePath)
                    then trim imagePath else DEFAULT_IMAGE_PATH in
  let imagePath2 := if String.prefix "/uploads/" imagePath1
                    then imagePath1 else DEFAULT_IMAGE_PATH in
  Some {| item_id := id;
          item_title := trim title;
          item_model := trim model;
          item_buyPrice := buyPrice;
          item_rentPrice := rentPrice;
          item_status := if String.eqb status "available"
                         then "available" else "unavailable";
          item_note := trim note;
          item_imagePath := imagePath2 |}.

Definition with_imagePath (it : item) (p : string) : item :=
  {| item_id := item_id it;
     item_title := item_title it;
     item_model := item_model it;
     item_buyPrice := item_buyPrice it;
     item_rentPrice := item_rentPrice it;
     item_status := item_status it;
     item_note := item_note it;
     item_imagePath := p |}.

Definition price_json (p : option number) : value :=
  match p with None => VNull | Some n => VNum n end.

Definition item_json (it : item) : value :=
  VObj [("id", VStr (item_id it));
        ("title", VStr (item_title it));
        ("model", VStr (item_model it));
        ("buyPrice", price_json (item_buyPrice it));
        ("rentPrice", price_json (item_rentPrice it));
        ("status", VStr (item_status it));
        ("note", VStr (item_note it));
        ("imagePath", VStr (item_imagePath it))].

Definition photo_json (ph : photo) : value :=
  VObj [("id", VStr (photo_id ph));
        ("imagePath", VStr (photo_imagePath ph));
        ("caption", VStr (photo_caption ph));
        ("createdISO", VStr (photo_createdISO ph))].

(** ** The server *)

(** The collections the process keeps in memory.  Every handler reads and
    changes them within one turn of the event loop, so requests are served
    one after another.  [persist()] copies them to disk after each change
    and is not part of the model; neither are the mail the request handler
    sends and the best-effort removal of an image file by the two delete
    handlers. *)
Record state : Type := {
  BOOKED : list appt;
  PENDING : list appt;
  AVAILABILITY : availability;
  INVENTORY : list item;
  GALLERY : list photo
}.

Definition set_BOOKED (l : list appt) (st : state) : state :=
  {| BOOKED := l; PENDING := PENDING st; AVAILABILITY := AVAILABILITY st;
     INVENTORY := INVENTORY st; GALLERY := GALLERY st |}.

Definition set_PENDING (l : list appt) (st : state) : state :=
  {| BOOKED := BOOKED st; PENDING := l; AVAILABILITY := AVAILABILITY st;
     INVENTORY := INVENTORY st; GALLERY := GALLERY st |}.

Definition set_AVAILABILITY (a : availability) (st : state) : state :=
  {| BOOKED := BOOKED st; PENDING := PENDING st; AVAILABILITY := a;
     INVENTORY := INVENTORY st; GALLERY := GALLERY st |}.

Definition set_INVENTORY (l : list item) (st : state) : state :=
  {| BOOKED := BOOKED st; PENDING := PENDING st;
     AVAILABILITY := AVAILABILITY st; INVENTORY := l; GALLERY := GALLERY st |}.

Definition set_GALLERY (l : list photo) (st : state) : state :=
  {| BOOKED := BOOKED st; PENDING := PENDING st;
     AVAILABILITY := AVAILABILITY st; INVENTORY := INVENTORY st;
     GALLERY := l |}.

(** What [json(res, status, obj)] sends. *)
Record response : Type := {
  status : nat;
  reply : value
}.

Definition ok (fields : list (string * value)) : response :=
  {| status := 200; reply := VObj (("ok", VBool true) :: fields) |}.

Definition failure (code : nat) (error : string) : response :=
  {| status := code;
     reply := VObj [("ok", VBool false); ("error", VStr error)] |}.

Definition count {A : Type} (l : list A) : value :=
  VNum (Fin (inject_Z (Z.of_nat (length l)))).

(** A handler: the callback given to [readBodyJson], run on the parsed
    body.  [None]: the callback threw. *)
Definition handler : Type := value -> state -> option (response * state).

(** POST /api/availability/set *)
Definition availability_set `{Host} : handler := fun payload st =>
  next ← normalizeAvailability (js_nullish (get payload "availability") payload);
  Some (ok [], set_AVAILABILITY next st).

(** POST /api/schedule/request.  The answer is sent once the notification
    mail has been tried; the pending list is changed before. *)
Definition schedule_request `{Host} (e : env) : handler := fun payload st =>
  appt ← normalizeAppt e payload "pending";
  if negb (is_nonempty (appt_startISO appt)) then
    Some (failure 400 "Missing startISO", st)
  else if hasStart (BOOKED st) (appt_startISO appt) then
    Some (failure 409 "Slot already booked", st)
  else if hasStart (PENDING st) (appt_startISO appt) then
    Some (failure 409 "Slot already pending", st)
  else
    let st' := set_PENDING (PENDING st ++ [appt]) st in
    Some (ok [("id", VStr (appt_id appt)); ("pendingCount", count (PENDING st'))],
          st').

(** POST /api/schedule/book *)
Definition schedule_book `{Host} (e : env) : handler := fun payload st =>
  appt ← normalizeAppt e payload "accepted";
  if negb (is_nonempty (appt_startISO appt)) then
    Some (failure 400 "Missing startISO", st)
  else if hasStart (BOOKED st) (appt_startISO appt) then
    Some (failure 409 "Slot already booked", st)
  else
    let pending := filter (fun x => appt_startISO x ≠ appt_startISO appt)
                     (PENDING st) in
    let st' := set_BOOKED (BOOKED st ++ [appt]) (set_PENDING pending st) in
    Some (ok [("id", VStr (appt_id appt)); ("bookedCount", count (BOOKED st'))],
          st').

(** POST /api/schedule/accept *)
Definition schedule_accept `{Host} : handler := fun payload st =>
  id ← to_String (js_or (get payload "id") (VStr ""));
  if negb (is_nonempty id) then Some (failure 400 "Missing id", st) else
  match list_find (fun x => appt_id x = id) (PENDING st) with
  | None => Some (failure 404 "Pending id not found", st)
  | Some (idx, reqAppt) =>
      if hasStart (BOOKED st) (appt_startISO reqAppt) then
        Some (failure 409 "Slot already booked",
              set_PENDING (delete idx (PENDING st)) st)
      else
        let appt := with_status reqAppt "accepted" in
        Some (ok [("id", VStr (appt_id appt))],
              set_BOOKED (BOOKED st ++ [appt])
                (set_PENDING (delete idx (PENDING st)) st))
  end.

(** POST /api/schedule/reject *)
Definition schedule_reject `{Host} : handler := fun payload st =>
  id ← to_String (js_or (get payload "id") (VStr ""));
  if negb (is_nonempty id) then Some (failure 400 "Missing id", st) else
  let before := length (PENDING st) in
  let st' := set_PENDING (filter (fun x => appt_id x ≠ id) (PENDING st)) st in
  if Nat.eqb (length (PENDING st')) before then
    Some (failure 404 "Pending id not found", st')
  else Some (ok [], st').

(** POST /api/schedule/cancel *)
Definition schedule_cancel `{Host} : handler := fun payload st =>
  id ← to_String (js_or (get payload "id") (VStr ""));
  if negb (is_nonempty id) then Some (failure 400 "Missing id", st) else
  let before := length (BOOKED st) in
  let st' := set_BOOKED (filter (fun x => appt_id x ≠ id) (BOOKED st)) st in
  if Nat.eqb (length (BOOKED st')) before then
    Some (failure 404 "Booked id not found", st')
  else Some (ok [], st').

(** POST /api/inventory/upsert *)
Definition inventory_upsert `{Host} (e : env) : handler := fun payload st =>
  let rawItem := js_nullish (get payload "item") payload in
  item0 ← normalizeInventoryItem e rawItem;
  let imageDataUrl :=
    js_or (js_or (get payload "imageDataUrl") (get payload "image"))
      (get payload "imageBase64") in
  item1 ←
    (if truthy imageDataUrl then
       p ← saveUploadedImage e imageDataUrl
             (js_or (js_or (get payload "imageName") (get rawItem "imageName"))
                (VStr "upload"))
             (item_id item0) VUndef;
       Some (with_imagePath item0 p)
     else if negb (is_nonempty (item_imagePath item0)) then
       Some (with_imagePath item0 DEFAULT_IMAGE_PATH)
     else Some item0);
  let inventory :=
    match list_find (fun x => item_id x = item_id item1) (INVENTORY st) with
    | Some (idx, _) => <[idx := item1]> (INVENTORY st)
    | None => INVENTORY st ++ [item1]
    end in
  Some (ok [("item", item_json item1)], set_INVENTORY inventory st).

(** POST /api/inventory/delete *)
Definition inventory_delete `{Host} : handler := fun payload st =>
  id ← to_String (js_or (get payload "id") (VStr ""));
  if negb (is_nonempty id) then Some (failure 400 "Missing id", st) else
  match list_find (fun x => item_id x = id) (INVENTORY st) with
  | None => Some (failure 404 "Not found", st)
  | Some (idx, _) => Some (ok [], set_INVENTORY (delete idx (INVENTORY st)) st)
  end.

(** POST /api/gallery/add *)
Definition gallery_add `{Host} (e : env) : handler := fun payload st =>
  caption ← to_String (js_or (get payload "caption") (VStr ""));
  let imageDataUrl :=
    js_or (js_or (get payload "imageDataUrl") (get payload "image"))
      (get payload "imageBase64") in
  if negb (truthy imageDataUrl) then
    Some (failure 400 "Missing imageDataUrl", st)
  else
    let id := makeId e in
    imagePath ← saveUploadedImage e imageDataUrl
                  (js_or (get payload "imageName") (VStr "gallery"))
                  id (VStr "gal");
    let ph := {| photo_id := id; photo_imagePath := imagePath;
                 photo_caption := trim caption;
                 photo_createdISO := nowStamp e |} in
    Some (ok [("photo", photo_json ph)], set_GALLERY (ph :: GALLERY st) st).

(** POST /api/gallery/delete *)
Definition gallery_delete `{Host} : handler := fun payload st =>
  id ← to_String (js_or (get payload "id") (VStr ""));
  if negb (is_nonempty id) then Some (failure 400 "Missing id", st) else
  match list_find (fun x => photo_id x = id) (GALLERY st) with
  | None => Some (failure 404 "Not found", st)
  | Some (idx, _) => Some (ok [], set_GALLERY (delete idx (GALLERY st)) st)
  end.




(** ** Sequences of schedule requests *)

Inductive schedule_call : Type :=
  | Request (e : env) (payload : value)
  | Book (e : env) (payload : value)
  | Accept (payload : value)
  | Reject (payload : value)
  | Cancel (payload : value).

Definition schedule_handler `{Host} (c : schedule_call) : state -> option (response * state) :=
  match c with
  | Request e p => schedule_request e p
  | Book e p => schedule_book e p
  | Accept p => schedule_accept p
  | Reject p => schedule_reject p
  | Cancel p => schedule_cancel p
  end.

(** One request served.  Every handler converts its input before it
    changes a collection, so a handler that throws leaves the schedule as
    it was. *)
Definition step `{Host} (st : state) (c : schedule_call) : state :=
  match schedule_handler c st with
  | Some (_, st') => st'
  | None => st
  end.

Definition run `{Host} (calls : list schedule_call) (st : state) : state :=
  foldl step st calls.

(** The server started with no data files. *)
Definition initial : state :=
  {| BOOKED := []; PENDING := []; AVAILABILITY := DEFAULT_AVAILABILITY;
     INVENTORY := []; GALLERY := [] |}.

(** ** The client's block and unblock buttons *)

Definition number_json (n : number) : value :=
  match n with Fin q => VNum (Fin q) | _ => VNull end.

Definition dayconf_json (c : dayconf) : value :=
  VObj [("enabled", VBool (conf_enabled c));
        ("start", number_json (conf_start c));
        ("end", number_json (conf_end c))].

(** What the client holds after GET /api/availability: the stored
    availability as [JSON.stringify] and [JSON.parse] carry it (a number
    that is not finite becomes [null]). *)
Definition weekly_json (w : gmap string dayconf) : value :=
  VObj (prod_map id dayconf_json <$> map_to_list w).

Definition blocks_json (b : gmap string (list string)) : value :=
  VObj (prod_map id (fun l => VArr (VStr <$> l)) <$> map_to_list b).

(** The names every object inherits from [Object.prototype].  Reading one
    of them from an object that has no such property of its own gives a
    function (or the prototype), not [undefined]. *)
Definition Object_prototype_names : list string :=
  ["constructor"; "__defineGetter__"; "__defineSetter__"; "hasOwnProperty";
   "__lookupGetter__"; "__lookupSetter__"; "isPrototypeOf";
   "propertyIsEnumerable"; "toString"; "valueOf"; "__proto__";
   "toLocaleString"].

(** [blockSlotServer]: the body it posts to /api/availability/set, from the
    availability last loaded, the date [dateISO] and the time [t] of the
    slot.  [dateISO] is the first ten characters of an ISO time stamp; the
    lookup [next.blocks[dateISO]] is modelled for keys outside
    [Object_prototype_names]. *)
Definition blockSlotServer (a : availability) (dateISO t : string)
    (shouldBlock : bool) : value :=
  let arr := default [] (blocks a !! dateISO) in
  let has := bool_decide (t ∈ arr) in
  let next1 :=
    if shouldBlock && negb has
    then <[dateISO := sort_strings (arr ++ [t])]> (blocks a)
    else blocks a in
  let next2 :=
    if negb shouldBlock && has then
      match filter (fun x => x ≠ t) arr with
      | [] => delete dateISO next1
      | filtered => <[dateISO := filtered]> next1
      end
    else next1 in
  VObj [("availability",
         VObj [("weekly", weekly_json (weekly a));
               ("blocks", blocks_json next2)])].

(** ** A host to run the handlers on

    [Date.parse] on the complete UTC form of the ECMAScript date-time
    string format, [YYYY-MM-DDTHH:mm:ssZ] with or without [.sss] (what
    [toISOString] prints and the client sends as [startISO]); the
    conversion to a number of an unsigned decimal integer, of the empty
    string and of the three spellings of infinity; the rendering of
    integers (below 10^21 in magnitude).  On these inputs, and on strings
    with no digit in them, it answers as a JavaScript engine does; on the
    rest it answers [NaN] (or, for a fraction, numerator and denominator),
    which an engine need not.  The properties below hold for every host;
    this one instantiates them on concrete requests. *)
Module Sample.

Definition digit (c : ascii) : option Z :=
  let n := Z.of_nat (nat_of_ascii c) in
  if bool_decide (48 ≤ n ≤ 57)%Z then Some (n - 48)%Z else None.

(** Exactly [n] decimal digits. *)
Fixpoint digits (n : nat) (acc : Z) (s : string) : option (Z * string) :=
  match n with
  | O => Some (acc, s)
  | S n' =>
      match s with
      | EmptyString => None
      | String c s' => d ← digit c; digits n' (10 * acc + d)%Z s'
      end
  end.

Definition lit (c : ascii) (s : string) : option string :=
  match s with
  | String c' s' => if bool_decide (c = c') then Some s' else None
  | EmptyString => None
  end.

Definition is_leap (y : Z) : bool :=
  bool_decide (y mod 4 = 0)%Z
  && (negb (bool_decide (y mod 100 = 0)%Z) || bool_decide (y mod 400 = 0)%Z).

Definition days_in_month (y m : Z) : Z :=
  if bool_decide (m = 2)%Z then (if is_leap y then 29 else 28)%Z
  else if bool_decide (m ∈ [4; 6; 9; 11]%Z) then 30%Z
  else 31%Z.

(** Days from 1970-01-01 to the given civil date. *)
Definition days_from_civil (y m d : Z) : Z :=
  let y' := (if bool_decide (m ≤ 2)%Z then y - 1 else y)%Z in
  let era := (y' / 400)%Z in
  let yoe := (y' - era * 400)%Z in
  let mp := (if bool_decide (m ≤ 2)%Z then m + 9 else m - 3)%Z in
  let doy := ((153 * mp + 2) / 5 + d - 1)%Z in
  let doe := (yoe * 365 + yoe / 4 - yoe / 100 + doy)%Z in
  (era * 146097 + doe - 719468)%Z.

Definition millis (s : string) : option (Z * string) :=
  match s with
  | String "." s' => digits 3 0 s'
  | _ => Some (0%Z, s)
  end.

Definition parse (s : string) : option Z :=
  '(y, s) ← digits 4 0 s;
  s ← lit "-" s;
  '(mo, s) ← digits 2 0 s;
  s ← lit "-" s;
  '(d, s) ← digits 2 0 s;
  s ← lit "T" s;
  '(h, s) ← digits 2 0 s;
  s ← lit ":" s;
  '(mi, s) ← digits 2 0 s;
  s ← lit ":" s;
  '(sec, s) ← digits 2 0 s;
  '(ms, s) ← millis s;
  if String.eqb s "Z"
     && bool_decide (1 ≤ mo ≤ 12)%Z
     && bool_decide (1 ≤ d ≤ days_in_month y mo)%Z
     && bool_decide (h ≤ 23)%Z && bool_decide (mi ≤ 59)%Z
     && bool_decide (sec ≤ 59)%Z
  then Some ((((days_from_civil y mo d * 24 + h) * 60 + mi) * 60 + sec)
             * 1000 + ms)%Z
  else None.

Fixpoint all_digits (acc : Z) (s : string) : option Z :=
  match s with
  | EmptyString => Some acc
  | String c s' => d ← digit c; all_digits (10 * acc + d)%Z s'
  end.

Definition string_to_number (s : string) : number :=
  let t := trim s in
  if String.eqb t "" then Fin 0
  else if String.eqb t "Infinity" || String.eqb t "+Infinity" then PosInf
  else if String.eqb t "-Infinity" then NegInf
  else match all_digits 0 t with
       | Some n => Fin (inject_Z n)
       | None => NaN
       end.

Definition render (q : Q) : string :=
  let r := Qred q in
  if Pos.eqb (Qden r) 1 then pretty (Qnum r)
  else pretty (Qnum r) +:+ "/" +:+ pretty (Zpos (Qden r)).

Definition host : Host :=
  {| Date_parse := parse;
     Number_toString := render;
     StringToNumber := string_to_number |}.

(** An environment for examples: a fixed identifier and time stamp; an
    upload is stored under a fixed name. *)
Definition environment (id : string) : env :=
  {| makeId := id;
     nowStamp := "2026-03-01T12:00:00.000Z";
     saveUploadedImage := fun _ _ _ _ => Some "/uploads/inv_1_1.png" |}.

End Sample.

(** ** The vocabulary of the specification *)

(** Two [startISO] strings name the same start time when [Date.parse] maps
    both to the same time value; a string it maps to [NaN] names none. *)
Definition same_start `{Host} (s1 s2 : string) : Prop :=
  ∃ t : Z, Date_parse s1 = Some t ∧ Date_parse s2 = Some t.

(** Some booked or pending appointment has the start time [s]. *)
Definition start_taken `{Host} (st : state) (s : string) : Prop :=
  ∃ x, (x ∈ BOOKED st ∨ x ∈ PENDING st) ∧ same_start (appt_startISO x) s.

Definition apart `{Host} (x y : appt) : Prop :=
  ¬ same_start (appt_startISO x) (appt_startISO y).

(** No two entries of the booked list have the same start time. *)
Definition no_double_booking `{Host} (booked : list appt) : Prop :=
  ∀ (i j : nat) (x y : appt),
    i ≠ j → booked !! i = Some x → booked !! j = Some y →
    ¬ same_start (appt_startISO x) (appt_startISO y).

(** [String(payload?.id || "")], the id a request names. *)
Definition body_id `{Host} (payload : value) : option string :=
  to_String (js_or (get payload "id") (VStr "")).

(** A list of blocked times as a set: not empty, no duplicate, ascending,
    no empty string. *)
Definition block_list (l : list string) : Prop :=
  l ≠ [] ∧ NoDup l ∧ StronglySorted String.le l ∧ Forall (λ s, s ≠ "") l.

Definition is_digit (c : ascii) : bool :=
  let n := nat_of_ascii c in (48 <=? n)%nat && (n <=? 57)%nat.

(** [HH:MM]: two digits, a colon, two digits. *)
Definition is_HHMM (s : string) : bool :=
  match s with
  | String h1 (String h2 (String ":" (String m1 (String m2 EmptyString)))) =>
      is_digit h1 && is_digit h2 && is_digit m1 && is_digit m2
  | _ => false
  end.

(** [(payload?.availability ?? payload)?.blocks], the block table a request
    submits. *)
Definition submitted_blocks (payload : value) : value :=
  get (js_nullish (get payload "availability") payload) "blocks".

(** What the server keeps of a table of string lists it is sent. *)
Definition kept_blocks (m : gmap string (list string))
  : gmap string (list string) :=
  omap (λ l, match uniq_sorted l with [] => None | u => Some u end)
    (delete "__proto__" m).

(** The table [blockSlotServer] posts when asked to block. *)
Definition blocked_next (m : gmap string (list string)) (dateISO t : string)
  : gmap string (list string) :=
  let arr := default [] (m !! dateISO) in
  if bool_decide (t ∈ arr) then m else <[dateISO := sort_strings (arr ++ [t])]> m.

(** The block button: the client, online, posts what [blockSlotServer]
    builds from the availability the server holds, and the server stores
    it. *)
Definition block_slot `{Host} (dateISO t : string) (st : state)
  : option (response * state) :=
  availability_set (blockSlotServer (AVAILABILITY st) dateISO t true) st.

(** A well-formed entry of the weekly template. *)
Definition well_formed_day (c : dayconf) : Prop :=
  match conf_start c, conf_end c with
  | Fin s, Fin e => (0 <= s <= 23)%Q ∧ (1 <= e <= 24)%Q ∧ (s < e)%Q
  | _, _ => False
  end.



(** The PIN lives in [app.js]; the form that asks for it compares it in the
    browser and flips the client's management flag.  No request is sent. *)
Definition ADMIN_PIN : string := "dunesea".

Definition adminPinForm_submit (pin : string) (isAdmin : bool) : bool :=
  if String.eqb (trim pin) ADMIN_PIN then true else isAdmin.

(** ** Concrete requests and states *)
Module Ex.

Definition e1 : env := Sample.environment "id-1".
Definition T1 : string := "2026-03-02T15:00:00.000Z".
Definition T1' : string := "2026-03-02T15:00:00Z".
Definition T2 : string := "2026-03-03T09:00:00.000Z".

Definition ask (id start : string) : value :=
  VObj [("id", VStr id); ("startISO", VStr start); ("name", VStr "Ann")].

Definition by_id (id : string) : value := VObj [("id", VStr id)].

Definition made (id start status : string) : appt :=
  {| appt_id := id; appt_startISO := start; appt_slots := Fin 1;
     appt_name := "Ann"; appt_phone := ""; appt_email := "";
     appt_serviceType := ""; appt_appliance := ""; appt_notes := "";
     appt_status := status; appt_createdISO := "2026-03-01T12:00:00.000Z" |}.

(** A request for [T1], then a booking of the same instant written
    without milliseconds. *)
Definition clash : state :=
  @run Sample.host [Request e1 (ask "a1" T1); Book e1 (ask "b1" T1')] initial.

(** Two requests that carry the same client-chosen id. *)
Definition twins : state :=
  @run Sample.host [Request e1 (ask "x" T1); Request e1 (ask "x" T2)] initial.

(** A request whose id is the empty array: [[] || makeId()] is the array,
    and [String([])] is the empty string. *)
Definition nameless : state :=
  @run Sample.host
    [Request e1 (VObj [("id", VArr []); ("startISO", VStr T1);
                       ("name", VStr "Ann")])]
    initial.

(** Blocks that are not times, one time twice. *)
Definition lunch : value :=
  VObj [("availability",
         VObj [("blocks",
                VObj [("2026-03-02",
                       VArr [VStr "lunch"; VStr "08:00"; VStr "08:00"])])])].

(** The state after [lunch] is posted to the server just started. *)
Definition lunch_stored : state :=
  set_AVAILABILITY
    {| weekly := weekly DEFAULT_AVAILABILITY;
       blocks := {[ "2026-03-02" := ["08:00"; "lunch"] ]} |}
    initial.

(** A weekly template whose Sunday start is [start]. *)
Definition sunday (start : value) : value :=
  VObj [("availability",
         VObj [("weekly",
                VObj [("0", VObj [("enabled", VBool true);
                                  ("start", start);
                                  ("end", VNum (Fin 18))])])])].



End Ex.

(** ** The client's view of the schedule *)

(** [getAllScheduleRows] on the schedule last loaded from the server: the
    pending entries, then the booked ones, each with its status reset.  (A
    [slots] value that is not finite arrives as [null]; the client functions
    modelled here do not read it.) *)
Definition getAllScheduleRows (st : state) : list appt :=
  ((λ a, with_status a "pending") <$> PENDING st)
  ++ ((λ a, with_status a "accepted") <$> BOOKED st).

(** [findAppointmentByStart]: the first row with that very [startISO] text
    and status pending or accepted. *)
Definition findAppointmentByStart (st : state) (startISO : string) : option appt :=
  snd <$> list_find
    (λ a, appt_startISO a = startISO
          ∧ (appt_status a = "pending" ∨ appt_status a = "accepted"))
    (getAllScheduleRows st).

(** [deleteAppt], on the schedule last loaded: the route it posts [{ id }]
    to, if any. *)
Definition deleteAppt (st : state) (id : string) : option string :=
  let inPending := bool_decide (Exists (λ x, appt_id x = id) (PENDING st)) in
  let inBooked := bool_decide (Exists (λ x, appt_id x = id) (BOOKED st)) in
  if inPending then Some "/api/schedule/reject"
  else if inBooked then Some "/api/schedule/cancel"
  else None.

(** The status every entry of each list carries. *)
Definition statuses_in_place (st : state) : Prop :=
  Forall (λ a, appt_status a = "pending") (PENDING st)
  ∧ Forall (λ a, appt_status a = "accepted") (BOOKED st).

(** ** Sequences of inventory requests *)

(** Calls to the two inventory routes. *)
Inductive inventory_call : Type :=
  | Upsert (e : env) (payload : value)
  | DeleteItem (payload : value).

Definition inventory_handler `{Host} (c : inventory_call)
  : state -> option (response * state) :=
  match c with
  | Upsert e p => inventory_upsert e p
  | DeleteItem p => inventory_delete p
  end.

(** One inventory call served; a handler that throws has changed nothing. *)
Definition inventory_step `{Host} (st : state) (c : inventory_call) : state :=
  match inventory_handler c st with
  | Some (_, st') => st'
  | None => st
  end.

Definition inventory_run `{Host} (calls : list inventory_call) (st : state)
  : state :=
  foldl inventory_step st calls.

(** No two inventory items share an id. *)
Definition unique_item_ids (st : state) : Prop :=
  NoDup (item_id <$> INVENTORY st).

(** [payload?.imageDataUrl || payload?.image || payload?.imageBase64] *)
Definition body_image (payload : value) : value :=
  js_or (js_or (get payload "imageDataUrl") (get payload "image"))
    (get payload "imageBase64").

(** Every path [saveUploadedImage] returns starts with [/uploads/]. *)
Definition uploads_only (e : env) : Prop :=
  ∀ dataUrl filenameHint id prefix p,
    saveUploadedImage e dataUrl filenameHint id prefix = Some p →
    String.prefix "/uploads/" p = true.

(** ** The client's calendar and its availability forms *)

(** [String(n).padStart(2, "0")] for a natural number [n]. *)
Definition pad2 (n : nat) : string :=
  let s := pretty n in
  if (String.length s <? 2)%nat then "0" +:+ s else s.

(** The time of a slot as the client writes it, [HH:MM]. *)
Definition slot_time (hh mm : nat) : string :=
  pad2 hh +:+ ":" +:+ pad2 mm.

(** [isBlockedServer] on the availability last loaded, for an hour and a
    minute that are natural numbers; the lookup [blocks[key]] is modelled
    for keys outside [Object_prototype_names]. *)
Definition isBlockedServer (a : availability) (dateISO : string)
    (hh mm : nat) : bool :=
  bool_decide (slot_time hh mm ∈ default [] (blocks a !! dateISO)).

(** The unblock button: the client, online, posts what [blockSlotServer]
    builds from the availability the server holds, and the server stores
    it. *)
Definition unblock_slot `{Host} (dateISO t : string) (st : state)
  : option (response * state) :=
  availability_set (blockSlotServer (AVAILABILITY st) dateISO t false) st.










(** [Math.ceil(((close - open) * 60) / slotMin)] for settings that are
    natural numbers (of a size floating point divides exactly), [slotMin]
    not zero; a closing hour before the opening hour gives no slot. *)
Definition numSlots (open close slotMin : nat) : nat :=
  let span := ((close - open) * 60)%nat in
  (span / slotMin + (if (span mod slotMin =? 0)%nat then 0 else 1))%nat.

(** The hour and the minute of slot [s], as [renderCalendar] and
    [onBlockDate] compute them. *)
Definition slot_of (open slotMin s : nat) : nat * nat :=
  let minutesFromOpen := (s * slotMin)%nat in
  ((open + minutesFromOpen / 60)%nat, (minutesFromOpen mod 60)%nat).

(** The slots of one day of the calendar. *)
Definition day_slots (open close slotMin : nat) : list (nat * nat) :=
  slot_of open slotMin <$> seq 0 (numSlots open close slotMin).

(** [onBlockDate]: the body it posts to /api/availability/set, from the
    availability last loaded, the date picked (not empty, or nothing is
    posted) and the three settings. *)
Definition onBlockDate (a : availability) (date : string)
    (open close slotMin : nat) : value :=
  let arr := (fun p => slot_time p.1 p.2) <$> day_slots open close slotMin in
  VObj [("availability",
         VObj [("weekly", weekly_json (weekly a));
               ("blocks", blocks_json (<[date := arr]> (blocks a)))])].

(** ** Escaping text for the page *)

(** [s.replaceAll(c, r)] for a pattern [c] of one character. *)
Fixpoint replaceAll (c : ascii) (r : string) (s : string) : string :=
  match s with
  | EmptyString => EmptyString
  | String x s' =>
      if Ascii.eqb x c then r +:+ replaceAll c r s'
      else String x (replaceAll c r s')
  end.

(** [escapeHtml]; ["034"] is the double quote. *)
Definition escapeHtml `{Host} (str : value) : option string :=
  s ← to_String (js_nullish str (VStr ""));
  Some (replaceAll "'" "&#039;"
          (replaceAll "034" "&quot;"
             (replaceAll ">" "&gt;"
                (replaceAll "<" "&lt;"
                   (replaceAll "&" "&amp;" s))))).

(** The characters that open or close a tag or an attribute value. *)
Definition markup : list ascii := ["<"; ">"; "034"; "'"]%char.

(** ** More concrete requests and states *)
Module More.

Definition e2 : env := Sample.environment "id-2".

(** The schedule after one request for [T1]. *)
Definition asked : state :=
  @run Sample.host [Request Ex.e1 (Ex.ask "a1" Ex.T1)] initial.

(** An inventory item as the admin form posts it. *)
Definition washer : value :=
  VObj [("item",
         VObj [("id", VStr "w1"); ("title", VStr " Washer ");
               ("buyPrice", VStr ""); ("status", VStr "available")])].

Definition washer_item : item :=
  {| item_id := "w1"; item_title := "Washer"; item_model := "";
     item_buyPrice := None; item_rentPrice := None;
     item_status := "available"; item_note := "";
     item_imagePath := DEFAULT_IMAGE_PATH |}.

Definition stocked : state := set_INVENTORY [washer_item] initial.

(** A photo as the gallery form posts it. *)
Definition snapshot : value :=
  VObj [("caption", VStr " Shop ");
        ("imageDataUrl", VStr "data:image/png;base64,AAAAAAAAAAAA")].

Definition snapshot_photo : photo :=
  {| photo_id := "id-1"; photo_imagePath := "/uploads/inv_1_1.png";
     photo_caption := "Shop"; photo_createdISO := "2026-03-01T12:00:00.000Z" |}.


End More.

(** * Properties *)

Set Warnings "-clear-no-such-hyp".

Example Sample_parse_examples :
  Sample.parse "1970-01-01T00:00:00.000Z" = Some 0%Z
  ∧ Sample.parse "2026-03-02T15:00:00.000Z" = Some 1772463600000%Z
  ∧ Sample.parse "2026-03-02T15:00:00Z" = Some 1772463600000%Z
  ∧ Sample.parse "2024-02-29T23:59:59.999Z" = Some 1709251199999%Z
  ∧ Sample.parse "2023-02-29T10:00:00Z" = None
  ∧ Sample.parse "whenever" = None.
Proof. vm_compute. repeat split. Qed.

Example Ex_states :
  PENDING Ex.clash = [Ex.made "a1" Ex.T1 "pending"]
  ∧ BOOKED Ex.clash = [Ex.made "b1" Ex.T1' "accepted"]
  ∧ PENDING Ex.twins = [Ex.made "x" Ex.T1 "pending"; Ex.made "x" Ex.T2 "pending"]
  ∧ BOOKED Ex.twins = []
  ∧ PENDING Ex.nameless = [Ex.made "" Ex.T1 "pending"].
Proof. vm_compute. repeat split. Qed.

(** ** Lists *)

Lemma filter_keeps_all {A} (P : A → Prop) `{!∀ x, Decision (P x)} (l : list A) :
  Forall P l → filter P l = l.
Proof.
  induction 1 as [|x l Hx Hl IH]; [done|].
  by rewrite filter_cons_True, IH.
Qed.

Lemma filter_keeps_length {A} (P : A → Prop) `{!∀ x, Decision (P x)} (l : list A) :
  length (filter P l) = length l ↔ Forall P l.
Proof.
  split.
  - intros Hlen. apply Forall_forall. intros x Hx.
    destruct (decide (P x)) as [|Hn]; [done|].
    pose proof (length_filter_lt P l x Hx Hn). lia.
  - intros Hall. by rewrite filter_keeps_all.
Qed.

Lemma str_or_empty_id s : str_or_empty s = s.
Proof. by destruct s. Qed.

Lemma is_nonempty_true s : is_nonempty s = true ↔ s ≠ "".
Proof. destruct s; naive_solver. Qed.

(** [PENDING.filter(x => x.id !== id)] and the length test that follows. *)
Lemma remove_by_id (l : list appt) (id : string) :
  if Nat.eqb (length (filter (λ x, appt_id x ≠ id) l)) (length l)
  then filter (λ x, appt_id x ≠ id) l = l ∧ ∀ x, x ∈ l → appt_id x ≠ id
  else ∃ x, x ∈ l ∧ appt_id x = id.
Proof.
  destruct (Nat.eqb_spec (length (filter (λ x, appt_id x ≠ id) l)) (length l))
    as [Heq|Hne].
  - apply filter_keeps_length in Heq. split; [by apply filter_keeps_all|].
    by apply Forall_forall.
  - rewrite filter_keeps_length in Hne.
    apply not_Forall_Exists in Hne; [|apply _].
    apply Exists_exists in Hne as (x & Hx & Hid). exists x. split; [done|].
    by destruct (decide (appt_id x = id)).
Qed.

(** ** The schedule *)

(** The item an upsert has put in the inventory is in it. *)
Lemma upserted_elem_of (it : item) (l : list item) :
  it ∈ match list_find (λ x, item_id x = item_id it) l with
       | Some (idx, _) => <[idx := it]> l
       | None => l ++ [it]
       end.
Proof.
  destruct (list_find _ _) as [[idx x]|] eqn:Hfind.
  - apply list_find_Some in Hfind as (Hidx & _ & _).
    eapply list_elem_of_lookup_2. apply list_lookup_insert_eq.
    by eapply lookup_lt_Some.
  - apply elem_of_app. right. by apply list_elem_of_singleton.
Qed.

Section Schedule.
Context `{Host}.

Lemma same_start_sym s1 s2 : same_start s1 s2 → same_start s2 s1.
Proof. intros (t & ? & ?). by exists t. Qed.

Lemma hasStart_spec (l : list appt) (s : string) :
  hasStart l s = true ↔ ∃ x, x ∈ l ∧ same_start (appt_startISO x) s.
Proof.
  unfold hasStart, same_start. rewrite str_or_empty_id.
  destruct (Date_parse s) as [target|] eqn:Hs.
  - rewrite existsb_exists. split.
    + intros (x & Hx & Ht). exists x. rewrite <- list_elem_of_In in Hx.
      split; [done|]. rewrite str_or_empty_id in Ht.
      destruct (Date_parse (appt_startISO x)) as [t|]; [|done].
      apply Z.eqb_eq in Ht as ->. eauto.
    + intros (x & Hx & t & Hxt & Ht). exists x. rewrite <- list_elem_of_In.
      split; [done|]. rewrite str_or_empty_id, Hxt. apply Z.eqb_eq. congruence.
  - split; [done|]. intros (x & _ & t & _ & ?). done.
Qed.

Lemma hasStart_false (l : list appt) (s : string) :
  hasStart l s = false ↔ ∀ x, x ∈ l → ¬ same_start (appt_startISO x) s.
Proof. rewrite <- not_true_iff_false, hasStart_spec. naive_solver. Qed.

Lemma start_taken_spec st s :
  start_taken st s
  ↔ hasStart (BOOKED st) s = true ∨ hasStart (PENDING st) s = true.
Proof. unfold start_taken. rewrite !hasStart_spec. naive_solver. Qed.

(** C1. A POST to /api/schedule/request whose body converts to an
    appointment [a] with a non-empty [startISO] is always answered, and in
    one of two ways.  Either no booked or pending appointment has the start
    time of [a] (the comparison of [hasStart]: equal [Date.parse] values):
    then the status is 200, [a] is appended to the pending list and the
    booked list is unchanged.  Or some appointment has it: then the status
    is 409 and the state is unchanged.  So a request succeeds only if the
    start time is free. *)
Theorem request_succeeds_only_on_free_start e payload st a :
  normalizeAppt e payload "pending" = Some a →
  appt_startISO a ≠ "" →
  ∃ r st', schedule_request e payload st = Some (r, st') ∧
    ((¬ start_taken st (appt_startISO a) ∧ status r = 200
      ∧ PENDING st' = PENDING st ++ [a] ∧ BOOKED st' = BOOKED st)
     ∨ (start_taken st (appt_startISO a) ∧ status r = 409 ∧ st' = st)).
Proof.
  intros Ha Hne. unfold schedule_request. rewrite Ha. simpl.
  apply is_nonempty_true in Hne. rewrite Hne. simpl.
  destruct (hasStart (BOOKED st) (appt_startISO a)) eqn:Hb.
  { eexists _, _. split; [done|]. right. rewrite start_taken_spec. auto. }
  destruct (hasStart (PENDING st) (appt_startISO a)) eqn:Hp.
  { eexists _, _. split; [done|]. right. rewrite start_taken_spec. auto. }
  eexists _, _. split; [done|]. left. rewrite start_taken_spec.
  split; [|done]. intros [?|?]; congruence.
Qed.

(** *** Start times that do not parse *)

Lemma request_unparseable e payload st a :
  normalizeAppt e payload "pending" = Some a →
  appt_startISO a ≠ "" →
  Date_parse (appt_startISO a) = None →
  ∃ r, schedule_request e payload st
       = Some (r, set_PENDING (PENDING st ++ [a]) st) ∧ status r = 200.
Proof.
  intros Ha Hne Hnan. unfold schedule_request. rewrite Ha. simpl.
  apply is_nonempty_true in Hne. rewrite Hne. simpl.
  unfold hasStart. rewrite str_or_empty_id, Hnan. eauto.
Qed.

Lemma requests_unparseable (s : string) (calls : list (env * value))
    (appts : list appt) st :
  s ≠ "" → Date_parse s = None →
  Forall2 (λ c a, normalizeAppt c.1 c.2 "pending" = Some a ∧ appt_startISO a = s)
    calls appts →
  run ((λ c, Request c.1 c.2) <$> calls) st = set_PENDING (PENDING st ++ appts) st.
Proof.
  intros Hne Hnan Hall. revert st.
  induction Hall as [|[e p] a calls appts [Ha Hs] _ IH]; intros st.
  - simpl. rewrite app_nil_r. by destruct st.
  - simpl. unfold run in *. simpl. unfold step at 2. simpl.
    destruct (request_unparseable e p st a) as (r & -> & _); [done|congruence..|].
    rewrite IH. simpl. by rewrite <- app_assoc.
Qed.

(** C8. [hasStart] compares start times by their parsed time value, not by
    their text.  (1) It answers true exactly when some entry of the list
    and the given string are mapped by [Date.parse] to the same number.
    (2) So a request whose start parses to the time value of a booked or
    pending entry is refused with 409 and changes nothing, however the two
    strings are written.  (3) A request whose non-empty start does not
    parse is accepted in every state, with status 200 and the appointment
    appended to the pending list.  (4) So any number of requests carrying
    one and the same unparseable start are all appended to the pending
    list. *)
Theorem start_times_compared_by_timestamp :
  (∀ (l : list appt) (s : string),
     hasStart l s = true ↔
     ∃ x t, x ∈ l ∧ Date_parse (appt_startISO x) = Some t ∧ Date_parse s = Some t)
  ∧ (∀ e payload st a x t,
       normalizeAppt e payload "pending" = Some a → appt_startISO a ≠ "" →
       x ∈ BOOKED st ∨ x ∈ PENDING st →
       Date_parse (appt_startISO x) = Some t →
       Date_parse (appt_startISO a) = Some t →
       ∃ r, schedule_request e payload st = Some (r, st) ∧ status r = 409)
  ∧ (∀ e payload st a,
       normalizeAppt e payload "pending" = Some a → appt_startISO a ≠ "" →
       Date_parse (appt_startISO a) = None →
       ∃ r, schedule_request e payload st
            = Some (r, set_PENDING (PENDING st ++ [a]) st) ∧ status r = 200)
  ∧ (∀ (s : string) (calls : list (env * value)) (appts : list appt) st,
       s ≠ "" → Date_parse s = None →
       Forall2 (λ c a, normalizeAppt c.1 c.2 "pending" = Some a
                       ∧ appt_startISO a = s) calls appts →
       run ((λ c, Request c.1 c.2) <$> calls) st
       = set_PENDING (PENDING st ++ appts) st).
Proof.
  split_and!.
  - intros l s. rewrite hasStart_spec. unfold same_start. naive_solver.
  - intros e payload st a x t Ha Hne Hx Hxt Hat.
    assert (start_taken st (appt_startISO a)) as Htaken.
    { exists x. split; [done|]. by exists t. }
    apply start_taken_spec in Htaken.
    unfold schedule_request. rewrite Ha. simpl.
    apply is_nonempty_true in Hne. rewrite Hne. simpl.
    destruct (hasStart (BOOKED st) (appt_startISO a)); [by eauto|].
    destruct Htaken as [Hb | Hp]; [done|]. rewrite Hp. eauto.
  - apply request_unparseable.
  - apply requests_unparseable.
Qed.

(** *** The booked list never holds one start time twice *)

Lemma no_double_booking_sorted l :
  no_double_booking l ↔ StronglySorted apart l.
Proof.
  split.
  - induction l as [|x l IH]; intros Hl; constructor.
    + apply IH. intros i j a b Hij Hi Hj.
      by apply (Hl (S i) (S j) a b); [lia|..].
    + apply Forall_forall. intros y Hy.
      apply list_elem_of_lookup in Hy as [j Hj].
      by apply (Hl 0%nat (S j) x y).
  - induction 1 as [|x l Hl IH Hx]; intros i j a b Hij Hi Hj.
    { by rewrite lookup_nil in Hi. }
    rewrite Forall_forall in Hx.
    destruct i as [|i], j as [|j]; simplify_eq/=.
    + apply Hx. by eapply list_elem_of_lookup_2.
    + intros Hs%same_start_sym. revert Hs. apply Hx.
      by eapply list_elem_of_lookup_2.
    + eapply IH; [|done..]. lia.
Qed.

Lemma apart_push l a :
  StronglySorted apart l → hasStart l (appt_startISO a) = false →
  StronglySorted apart (l ++ [a]).
Proof.
  intros Hl Hf. rewrite hasStart_false in Hf.
  apply StronglySorted_app_2; [|done|repeat constructor].
  intros x y Hx ->%list_elem_of_singleton. by apply Hf.
Qed.

Lemma apart_filter (P : appt → Prop) `{!∀ x, Decision (P x)} l :
  StronglySorted apart l → StronglySorted apart (filter P l).
Proof.
  induction 1 as [|x l Hl IH Hx]; [constructor|].
  rewrite filter_cons. case_decide; [|done].
  constructor; [done|]. rewrite Forall_forall in Hx |- *.
  intros y [_ Hy]%list_elem_of_filter. by apply Hx.
Qed.

Lemma step_keeps_apart st c :
  StronglySorted apart (BOOKED st) → StronglySorted apart (BOOKED (step st c)).
Proof.
  intros Hst. unfold step.
  destruct (schedule_handler c st) as [[r st']|] eqn:Hc; [|done].
  destruct c as [e p|e p|p|p|p]; simpl in Hc.
  - unfold schedule_request in Hc.
    destruct (normalizeAppt e p "pending") as [a|]; simplify_eq/=.
    repeat case_match; by simplify_eq/=.
  - unfold schedule_book in Hc.
    destruct (normalizeAppt e p "accepted") as [a|]; simplify_eq/=.
    repeat case_match; simplify_eq/=; try done. by apply apart_push.
  - unfold schedule_accept in Hc.
    destruct (to_String _) as [id|]; simplify_eq/=.
    repeat case_match; simplify_eq/=; try done. by apply apart_push.
  - unfold schedule_reject in Hc.
    destruct (to_String _) as [id|]; simplify_eq/=.
    repeat case_match; by simplify_eq/=.
  - unfold schedule_cancel in Hc.
    destruct (to_String _) as [id|]; simplify_eq/=.
    repeat case_match; simplify_eq/=; try done; by apply apart_filter.
Qed.

(** C4. No time slot is ever double-booked: after any sequence of calls to
    the request, book, accept, reject and cancel endpoints, started from
    the empty schedule, no two entries of the booked list (at different
    positions) have the same start time, that is, [startISO] strings that
    [Date.parse] maps to the same time value. *)
Theorem never_double_booked (calls : list schedule_call) :
  no_double_booking (BOOKED (run calls initial)).
Proof.
  apply no_double_booking_sorted. unfold run.
  assert (StronglySorted apart (BOOKED initial)) as Hinit by constructor.
  revert Hinit. generalize initial.
  induction calls as [|c calls IH]; intros st Hst; [done|].
  simpl. apply IH. by apply step_keeps_apart.
Qed.

(** *** Accepting a request *)

(** C2, as the code has it.  Whatever POST /api/schedule/accept answers,
    the status is 200, 400, 404 or 409.  On 400 and 404 the state is
    unchanged.  On 409 the booked list is unchanged and the pending request
    the call names (the first pending entry with the id of the body),
    whose slot is already booked, is deleted from the pending list; no
    other entry is.  On 200 the pending request the call names, whose slot
    is not booked, is deleted from the pending list and, with status
    "accepted", appended to the booked list in the same call; the booked
    list changes in no other case. *)
Theorem accept_effect_by_status payload st r st' :
  schedule_accept payload st = Some (r, st') →
  (status r = 400 ∨ status r = 404 → st' = st)
  ∧ (status r = 409 →
       BOOKED st' = BOOKED st
       ∧ ∃ id idx a, body_id payload = Some id
           ∧ list_find (λ x, appt_id x = id) (PENDING st) = Some (idx, a)
           ∧ hasStart (BOOKED st) (appt_startISO a) = true
           ∧ PENDING st' = delete idx (PENDING st))
  ∧ (status r = 200 →
       ∃ id idx a, body_id payload = Some id
           ∧ list_find (λ x, appt_id x = id) (PENDING st) = Some (idx, a)
           ∧ hasStart (BOOKED st) (appt_startISO a) = false
           ∧ PENDING st' = delete idx (PENDING st)
           ∧ BOOKED st' = BOOKED st ++ [with_status a "accepted"])
  ∧ (status r = 200 ∨ status r = 400 ∨ status r = 404 ∨ status r = 409).
Proof.
  unfold schedule_accept, body_id. intros Hacc.
  destruct (to_String _) as [id|]; simplify_eq/=.
  destruct (is_nonempty id); simplify_eq/=; [|by intuition].
  destruct (list_find _ (PENDING st)) as [[idx a]|] eqn:Hfind; simplify_eq/=;
    [|by intuition].
  destruct (hasStart _ _) eqn:Hb; simplify_eq/=.
  - split_and!; [by intros [?|?]|intros _; eauto 10|done|auto].
  - split_and!; [by intros [?|?]|done|intros _; eauto 10|auto].
Qed.

(** C3, as the code has it.  Let [a] be a pending appointment with a
    non-empty id, the first in the pending list with that id, such that no
    booked appointment has the start time of [a].  Then POST
    /api/schedule/accept with the id of [a] answers 200, deletes [a] (and
    nothing else) from the pending list and appends to the booked list [a]
    with its status set to "accepted" (and nothing else); availability,
    inventory and gallery are unchanged. *)
Theorem accept_moves_first_match payload st idx a :
  PENDING st !! idx = Some a →
  appt_id a ≠ "" →
  (∀ j y, j < idx → PENDING st !! j = Some y → appt_id y ≠ appt_id a) →
  (∀ x, x ∈ BOOKED st → ¬ same_start (appt_startISO x) (appt_startISO a)) →
  body_id payload = Some (appt_id a) →
  ∃ r st', schedule_accept payload st = Some (r, st')
    ∧ status r = 200
    ∧ PENDING st' = delete idx (PENDING st)
    ∧ BOOKED st' = BOOKED st ++ [with_status a "accepted"]
    ∧ AVAILABILITY st' = AVAILABILITY st
    ∧ INVENTORY st' = INVENTORY st ∧ GALLERY st' = GALLERY st.
Proof.
  intros Hidx Hne Hfirst Hfree Hid. unfold schedule_accept.
  unfold body_id in Hid. rewrite Hid. simpl.
  apply is_nonempty_true in Hne. rewrite Hne. simpl.
  assert (list_find (λ x, appt_id x = appt_id a) (PENDING st) = Some (idx, a))
    as ->.
  { apply list_find_Some. split_and!; [done..|].
    intros j y Hy Hj. by eapply Hfirst. }
  apply hasStart_false in Hfree. rewrite Hfree. eauto 10.
Qed.

(** *** Rejecting and cancelling *)

(** C10, as the code has it.  Let [id] be the id a request names.  If it
    is empty, reject and cancel answer 400 and change nothing.  Otherwise
    POST /api/schedule/reject leaves as pending list exactly the entries
    whose id differs from [id] and does not touch the booked list; it
    answers 200 when some pending entry has that id, and 404, with the
    state unchanged, when none has.  POST /api/schedule/cancel does the
    same with the roles of the two lists exchanged. *)
Theorem reject_cancel_effect payload st id :
  body_id payload = Some id →
  (id = "" →
     schedule_reject payload st = Some (failure 400 "Missing id", st)
     ∧ schedule_cancel payload st = Some (failure 400 "Missing id", st))
  ∧ (id ≠ "" →
     (∃ r st', schedule_reject payload st = Some (r, st')
        ∧ PENDING st' = filter (λ x, appt_id x ≠ id) (PENDING st)
        ∧ BOOKED st' = BOOKED st
        ∧ ((∃ x, x ∈ PENDING st ∧ appt_id x = id) → status r = 200)
        ∧ ((∀ x, x ∈ PENDING st → appt_id x ≠ id) → status r = 404 ∧ st' = st))
     ∧ (∃ r st', schedule_cancel payload st = Some (r, st')
        ∧ BOOKED st' = filter (λ x, appt_id x ≠ id) (BOOKED st)
        ∧ PENDING st' = PENDING st
        ∧ ((∃ x, x ∈ BOOKED st ∧ appt_id x = id) → status r = 200)
        ∧ ((∀ x, x ∈ BOOKED st → appt_id x ≠ id) → status r = 404 ∧ st' = st))).
Proof.
  intros Hid. unfold body_id in Hid.
  unfold schedule_reject, schedule_cancel. rewrite Hid. simpl.
  split; [by intros ->|].
  intros Hne. apply is_nonempty_true in Hne. rewrite Hne. simpl.
  split.
  - pose proof (remove_by_id (PENDING st) id) as Hcases.
    destruct (Nat.eqb _ _); eexists _, _; (split; [done|]); simpl.
    + destruct Hcases as [Hsame Hall]. split_and!; [done..| |].
      * intros (x & Hx & Hxid). by destruct (Hall x Hx).
      * intros _. split; [done|]. rewrite Hsame. by destruct st.
    + destruct Hcases as (x & Hx & Hxid). split_and!; [done..|].
      intros Hall. by destruct (Hall x Hx).
  - pose proof (remove_by_id (BOOKED st) id) as Hcases.
    destruct (Nat.eqb _ _); eexists _, _; (split; [done|]); simpl.
    + destruct Hcases as [Hsame Hall]. split_and!; [done..| |].
      * intros (x & Hx & Hxid). by destruct (Hall x Hx).
      * intros _. split; [done|]. rewrite Hsame. by destruct st.
    + destruct Hcases as (x & Hx & Hxid). split_and!; [done..|].
      intros Hall. by destruct (Hall x Hx).
Qed.

End Schedule.

(** *** The schedule properties on concrete requests *)

(** C1 on a request for a free start: it joins the pending list. *)
Lemma request_succeeds_only_on_free_start_witness :
  ∃ r st',
    @schedule_request Sample.host Ex.e1 (Ex.ask "a2" Ex.T2) Ex.clash
    = Some (r, st') ∧
    ((¬ @start_taken Sample.host Ex.clash Ex.T2 ∧ status r = 200
      ∧ PENDING st' = PENDING Ex.clash ++ [Ex.made "a2" Ex.T2 "pending"]
      ∧ BOOKED st' = BOOKED Ex.clash)
     ∨ (@start_taken Sample.host Ex.clash Ex.T2 ∧ status r = 409
        ∧ st' = Ex.clash)).
Proof.
  apply (@request_succeeds_only_on_free_start Sample.host Ex.e1
           (Ex.ask "a2" Ex.T2) Ex.clash (Ex.made "a2" Ex.T2 "pending")).
  - vm_compute. reflexivity.
  - discriminate.
Defined.

(** C8 on concrete requests: a start written with milliseconds collides
    with the booking of the same instant written without them, and two
    requests for "whenever" both join the pending list. *)
Lemma start_times_compared_by_timestamp_witness :
  Ex.T1 ≠ Ex.T1'
  ∧ (∃ r, @schedule_request Sample.host Ex.e1 (Ex.ask "a3" Ex.T1) Ex.clash
          = Some (r, Ex.clash) ∧ status r = 409)
  ∧ @run Sample.host
      [Request Ex.e1 (Ex.ask "w1" "whenever");
       Request Ex.e1 (Ex.ask "w2" "whenever")] initial
    = set_PENDING
        (PENDING initial ++ [Ex.made "w1" "whenever" "pending";
                             Ex.made "w2" "whenever" "pending"]) initial.
Proof.
  destruct (@start_times_compared_by_timestamp Sample.host)
    as (_ & Hclash & _ & Hall).
  split_and!.
  - discriminate.
  - apply (Hclash Ex.e1 (Ex.ask "a3" Ex.T1) Ex.clash
             (Ex.made "a3" Ex.T1 "pending") (Ex.made "b1" Ex.T1' "accepted")
             1772463600000%Z).
    + vm_compute. reflexivity.
    + discriminate.
    + left. vm_compute. constructor.
    + vm_compute. reflexivity.
    + vm_compute. reflexivity.
  - apply (Hall "whenever"
             [(Ex.e1, Ex.ask "w1" "whenever"); (Ex.e1, Ex.ask "w2" "whenever")]).
    + discriminate.
    + vm_compute. reflexivity.
    + repeat constructor.
Defined.

(** C2 fails as stated: the pending request "a1" is answered 409, its slot
    being booked, and it is gone from the pending list. *)
Lemma accept_conflict_drops_pending :
  ∃ r st', @schedule_accept Sample.host (Ex.by_id "a1") Ex.clash = Some (r, st')
    ∧ status r = 409
    ∧ PENDING Ex.clash = [Ex.made "a1" Ex.T1 "pending"]
    ∧ PENDING st' = []
    ∧ PENDING st' ≠ PENDING Ex.clash.
Proof.
  eexists _, _. split_and!; vm_compute; first [reflexivity | discriminate].
Qed.

(** C2, as the code has it, on that call. *)
Lemma accept_effect_by_status_witness :
  (status (failure 409 "Slot already booked") = 400
   ∨ status (failure 409 "Slot already booked") = 404 →
   set_PENDING [] Ex.clash = Ex.clash)
  ∧ (status (failure 409 "Slot already booked") = 409 →
       BOOKED (set_PENDING [] Ex.clash) = BOOKED Ex.clash
       ∧ ∃ id idx a, @body_id Sample.host (Ex.by_id "a1") = Some id
           ∧ list_find (λ x, appt_id x = id) (PENDING Ex.clash) = Some (idx, a)
           ∧ @hasStart Sample.host (BOOKED Ex.clash) (appt_startISO a) = true
           ∧ PENDING (set_PENDING [] Ex.clash) = delete idx (PENDING Ex.clash))
  ∧ (status (failure 409 "Slot already booked") = 200 →
       ∃ id idx a, @body_id Sample.host (Ex.by_id "a1") = Some id
           ∧ list_find (λ x, appt_id x = id) (PENDING Ex.clash) = Some (idx, a)
           ∧ @hasStart Sample.host (BOOKED Ex.clash) (appt_startISO a) = false
           ∧ PENDING (set_PENDING [] Ex.clash) = delete idx (PENDING Ex.clash)
           ∧ BOOKED (set_PENDING [] Ex.clash)
             = BOOKED Ex.clash ++ [with_status a "accepted"])
  ∧ (status (failure 409 "Slot already booked") = 200
     ∨ status (failure 409 "Slot already booked") = 400
     ∨ status (failure 409 "Slot already booked") = 404
     ∨ status (failure 409 "Slot already booked") = 409).
Proof.
  apply (@accept_effect_by_status Sample.host (Ex.by_id "a1")).
  vm_compute. reflexivity.
Defined.

(** C3 fails as stated: the second of two pending requests with the id "x"
    is pending, no booking has its start, and accepting by its id answers
    200, yet it stays pending and it is the first request that is booked. *)
Lemma accept_takes_the_other_twin :
  ∃ a1 a2 r st',
    PENDING Ex.twins = [a1; a2] ∧ BOOKED Ex.twins = []
    ∧ appt_id a2 = "x"
    ∧ @schedule_accept Sample.host (Ex.by_id (appt_id a2)) Ex.twins
      = Some (r, st')
    ∧ status r = 200
    ∧ PENDING st' = [a2]
    ∧ BOOKED st' = [with_status a1 "accepted"]
    ∧ appt_startISO a1 ≠ appt_startISO a2.
Proof.
  exists (Ex.made "x" Ex.T1 "pending"), (Ex.made "x" Ex.T2 "pending").
  eexists _, _. split_and!; vm_compute; first [reflexivity | discriminate].
Qed.

(** C3, as the code has it, on the first of the two. *)
Lemma accept_moves_first_match_witness :
  ∃ r st', @schedule_accept Sample.host (Ex.by_id "x") Ex.twins = Some (r, st')
    ∧ status r = 200
    ∧ PENDING st' = delete 0%nat (PENDING Ex.twins)
    ∧ BOOKED st' = BOOKED Ex.twins
                   ++ [with_status (Ex.made "x" Ex.T1 "pending") "accepted"]
    ∧ AVAILABILITY st' = AVAILABILITY Ex.twins
    ∧ INVENTORY st' = INVENTORY Ex.twins ∧ GALLERY st' = GALLERY Ex.twins.
Proof.
  apply (@accept_moves_first_match Sample.host (Ex.by_id "x") Ex.twins 0%nat
           (Ex.made "x" Ex.T1 "pending")).
  - vm_compute. reflexivity.
  - discriminate.
  - intros j y Hj. lia.
  - intros x Hx. vm_compute in Hx. inversion Hx.
  - vm_compute. reflexivity.
Defined.

(** C10 fails as stated: a pending entry has the empty id, a reject that
    names the empty id is answered 400, and the entry is still pending. *)
Lemma reject_cannot_name_the_empty_id :
  ∃ a r st',
    PENDING Ex.nameless = [a] ∧ appt_id a = ""
    ∧ @body_id Sample.host (Ex.by_id "") = Some ""
    ∧ @schedule_reject Sample.host (Ex.by_id "") Ex.nameless = Some (r, st')
    ∧ status r = 400
    ∧ PENDING st' = [a].
Proof.
  exists (Ex.made "" Ex.T1 "pending").
  eexists _, _. split_and!; vm_compute; reflexivity.
Qed.

(** C10, as the code has it, on a reject and a cancel that name "a1" where
    "a1" is pending and not booked. *)
Lemma reject_cancel_effect_witness :
  (∃ r st', @schedule_reject Sample.host (Ex.by_id "a1") Ex.clash = Some (r, st')
     ∧ PENDING st' = filter (λ x, appt_id x ≠ "a1") (PENDING Ex.clash)
     ∧ BOOKED st' = BOOKED Ex.clash
     ∧ ((∃ x, x ∈ PENDING Ex.clash ∧ appt_id x = "a1") → status r = 200)
     ∧ ((∀ x, x ∈ PENDING Ex.clash → appt_id x ≠ "a1") →
        status r = 404 ∧ st' = Ex.clash))
  ∧ (∃ r st', @schedule_cancel Sample.host (Ex.by_id "a1") Ex.clash = Some (r, st')
     ∧ BOOKED st' = filter (λ x, appt_id x ≠ "a1") (BOOKED Ex.clash)
     ∧ PENDING st' = PENDING Ex.clash
     ∧ ((∃ x, x ∈ BOOKED Ex.clash ∧ appt_id x = "a1") → status r = 200)
     ∧ ((∀ x, x ∈ BOOKED Ex.clash → appt_id x ≠ "a1") →
        status r = 404 ∧ st' = Ex.clash)).
Proof.
  apply (@reject_cancel_effect Sample.host (Ex.by_id "a1") Ex.clash "a1").
  - vm_compute. reflexivity.
  - discriminate.
Defined.

(** ** Availability *)

(** *** Sets of strings as sorted arrays *)

Lemma elem_of_uniq (x : string) arr : x ∈ uniq arr ↔ x ∈ arr.
Proof.
  induction arr as [|y arr IH]; simpl; [done|].
  rewrite !elem_of_cons, list_elem_of_filter, IH.
  destruct (decide (x = y)); naive_solver.
Qed.

Lemma NoDup_uniq arr : NoDup (uniq arr).
Proof.
  induction arr as [|y arr IH]; simpl; constructor.
  - rewrite list_elem_of_filter. naive_solver.
  - by apply NoDup_filter.
Qed.

Lemma elem_of_uniq_sorted (x : string) arr :
  x ∈ uniq_sorted arr ↔ x ∈ arr ∧ x ≠ "".
Proof.
  unfold uniq_sorted, sort_strings.
  rewrite merge_sort_Permutation, list_elem_of_filter, elem_of_uniq,
    is_nonempty_true.
  naive_solver.
Qed.

Lemma NoDup_uniq_sorted arr : NoDup (uniq_sorted arr).
Proof.
  unfold uniq_sorted, sort_strings. rewrite merge_sort_Permutation.
  apply NoDup_filter, NoDup_uniq.
Qed.

Lemma uniq_sorted_sorted arr : StronglySorted String.le (uniq_sorted arr).
Proof. apply StronglySorted_merge_sort; apply _. Qed.

(** The result depends on the set of non-empty elements only. *)
Lemma uniq_sorted_ext arr1 arr2 :
  (∀ x, x ≠ "" → x ∈ arr1 ↔ x ∈ arr2) → uniq_sorted arr1 = uniq_sorted arr2.
Proof.
  intros Hext.
  apply (StronglySorted_unique String.le); try apply uniq_sorted_sorted.
  apply NoDup_Permutation; try apply NoDup_uniq_sorted.
  intros x. rewrite !elem_of_uniq_sorted. naive_solver.
Qed.

Lemma uniq_sorted_fixed l :
  NoDup l → StronglySorted String.le l → Forall (λ s, s ≠ "") l →
  uniq_sorted l = l.
Proof.
  intros Hnd Hs Hne. apply (StronglySorted_unique String.le);
    [apply uniq_sorted_sorted|done|].
  apply NoDup_Permutation; [apply NoDup_uniq_sorted|done|].
  intros x. rewrite elem_of_uniq_sorted. rewrite Forall_forall in Hne.
  naive_solver.
Qed.

Lemma uniq_sorted_block_list arr :
  uniq_sorted arr ≠ [] → block_list (uniq_sorted arr).
Proof.
  intros Hne.
  split_and!; [done|apply NoDup_uniq_sorted|apply uniq_sorted_sorted|].
  apply Forall_forall. by intros x [_ ?]%elem_of_uniq_sorted.
Qed.

Lemma uniq_sorted_sort_snoc_empty l :
  uniq_sorted (sort_strings (l ++ [""])) = uniq_sorted l.
Proof.
  apply uniq_sorted_ext. intros x Hx. unfold sort_strings.
  rewrite merge_sort_Permutation, elem_of_app, list_elem_of_singleton.
  naive_solver.
Qed.

(** *** The kept table *)

Lemma kept_blocks_lookup m k :
  kept_blocks m !! k
  = if decide (k = "__proto__") then None
    else l ← m !! k; match uniq_sorted l with [] => None | u => Some u end.
Proof.
  unfold kept_blocks. rewrite lookup_omap. case_decide as Hk.
  - subst. by rewrite lookup_delete_eq.
  - by rewrite lookup_delete_ne.
Qed.

Lemma kept_blocks_values m k u :
  kept_blocks m !! k = Some u → u ≠ [] ∧ uniq_sorted u = u.
Proof.
  rewrite kept_blocks_lookup. case_decide; [done|].
  destruct (m !! k) as [l|]; simpl; [|done].
  destruct (uniq_sorted l) as [|s u'] eqn:Hl; [done|]. intros [= <-].
  split; [done|]. rewrite <- Hl. apply uniq_sorted_fixed.
  - apply NoDup_uniq_sorted.
  - apply uniq_sorted_sorted.
  - apply Forall_forall. by intros x [_ ?]%elem_of_uniq_sorted.
Qed.

Lemma kept_blocks_idem m : kept_blocks (kept_blocks m) = kept_blocks m.
Proof.
  apply map_eq. intros k. rewrite kept_blocks_lookup. case_decide as Hk.
  { subst. by rewrite kept_blocks_lookup, decide_True. }
  destruct (kept_blocks m !! k) as [u|] eqn:Hu; simpl; [|done].
  apply kept_blocks_values in Hu as [Hne ->]. by destruct u.
Qed.

Lemma kept_blocks_insert_same m d l :
  d ≠ "__proto__" →
  uniq_sorted l = default [] (kept_blocks m !! d) →
  kept_blocks (<[d := l]> (kept_blocks m)) = kept_blocks m.
Proof.
  intros Hd Hl. apply map_eq. intros k. rewrite kept_blocks_lookup.
  case_decide as Hk.
  { subst. by rewrite kept_blocks_lookup, decide_True. }
  destruct (decide (k = d)) as [->|Hne].
  - rewrite lookup_insert_eq. simpl. rewrite Hl.
    destruct (kept_blocks m !! d) as [u|] eqn:Hu; simpl; [|done].
    apply kept_blocks_values in Hu as [Hne _]. by destruct u.
  - rewrite lookup_insert_ne by done.
    transitivity (kept_blocks (kept_blocks m) !! k).
    + by rewrite (kept_blocks_lookup (kept_blocks m)), decide_False.
    + by rewrite kept_blocks_idem.
Qed.

Lemma blocked_next_has m d t :
  d ≠ "__proto__" → t ≠ "" →
  ∃ u, kept_blocks (blocked_next m d t) !! d = Some u ∧ t ∈ u.
Proof.
  intros Hd Ht. rewrite kept_blocks_lookup, decide_False by done.
  unfold blocked_next.
  assert (∃ l, (if bool_decide (t ∈ default [] (m !! d)) then m
                else <[d:=sort_strings (default [] (m !! d) ++ [t])]> m) !! d
               = Some l ∧ t ∈ l) as (l & -> & Hin).
  { case_bool_decide as Hhas.
    - destruct (m !! d) as [l|]; simpl in *; [eauto|].
      by apply elem_of_nil in Hhas.
    - rewrite lookup_insert_eq. eexists; split; [done|]. unfold sort_strings.
      rewrite merge_sort_Permutation, elem_of_app, list_elem_of_singleton.
      auto. }
  simpl. assert (t ∈ uniq_sorted l) as Hin' by by apply elem_of_uniq_sorted.
  destruct (uniq_sorted l) as [|s u]; [by apply elem_of_nil in Hin'|]. eauto.
Qed.

Lemma blocked_twice m d t :
  d ≠ "__proto__" →
  kept_blocks (blocked_next (kept_blocks (blocked_next m d t)) d t)
  = kept_blocks (blocked_next m d t).
Proof.
  intros Hd. set (m1 := kept_blocks (blocked_next m d t)).
  unfold blocked_next at 1. case_bool_decide as Hhas.
  { apply kept_blocks_idem. }
  assert (t = "") as ->.
  { destruct (decide (t = "")) as [|Hne]; [done|]. destruct Hhas.
    destruct (blocked_next_has m d t Hd Hne) as (u & Hu & Hin).
    fold m1 in Hu. by rewrite Hu. }
  apply kept_blocks_insert_same; [done|]. rewrite uniq_sorted_sort_snoc_empty.
  fold m1. destruct (m1 !! d) as [u|] eqn:Hu; simpl; [|reflexivity].
  by apply kept_blocks_values in Hu as [_ ->].
Qed.

Lemma store_block_lookup k0 u out k :
  store_block k0 u out !! k
  = if decide (k = k0 ∧ k ≠ "__proto__") then Some u else out !! k.
Proof.
  unfold store_block. destruct (String.eqb_spec k0 "__proto__") as [->|Hp].
  - case_decide; naive_solver.
  - destruct (decide (k = k0)) as [->|Hne].
    + rewrite lookup_insert_eq. by rewrite decide_True.
    + rewrite lookup_insert_ne by done. case_decide; naive_solver.
Qed.

(** *** The body the block button posts *)

Lemma assoc_json {A} (f : A → value) (ps : list (string * A)) k :
  assoc k (prod_map id f <$> ps)
  = from_option f VUndef ((list_to_map ps : gmap string A) !! k).
Proof.
  induction ps as [|[k' v] ps IH]; simpl; [done|].
  destruct (String.eqb_spec k k') as [->|Hne].
  - by rewrite lookup_insert_eq.
  - by rewrite lookup_insert_ne.
Qed.

Lemma get_blocks_json (m : gmap string (list string)) k :
  get (blocks_json m) k = from_option (λ l, VArr (VStr <$> l)) VUndef (m !! k).
Proof.
  unfold get, blocks_json. simpl. by rewrite assoc_json, list_to_map_to_list.
Qed.

Lemma get_weekly_json (w : gmap string dayconf) k :
  get (weekly_json w) k = from_option dayconf_json VUndef (w !! k).
Proof.
  unfold get, weekly_json. simpl. by rewrite assoc_json, list_to_map_to_list.
Qed.

Lemma get_DEFAULT_weekly k :
  get DEFAULT_AVAILABILITY_weekly k = VUndef
  ∨ ∃ b, get DEFAULT_AVAILABILITY_weekly k = DEFAULT_conf b.
Proof.
  unfold get. simpl. repeat (destruct (String.eqb k _); [by eauto|]). by left.
Qed.

Lemma blockSlotServer_block a dateISO t :
  blockSlotServer a dateISO t true
  = VObj [("availability",
           VObj [("weekly", weekly_json (weekly a));
                 ("blocks", blocks_json (blocked_next (blocks a) dateISO t))])].
Proof.
  unfold blockSlotServer, blocked_next. simpl.
  by destruct (bool_decide (t ∈ default [] (blocks a !! dateISO))).
Qed.

(** *** The weekly template *)



(** A property that is read is an own property. *)
Lemma get_is_key b k : get b k ≠ VUndef → k ∈ keys b.
Proof.
  unfold get, keys. induction (entries b) as [|[k' v] ps IH]; simpl; [done|].
  destruct (String.eqb_spec k k') as [->|Hne]; intros Hv.
  - left.
  - right. by apply IH.
Qed.

Section Availability.
Context `{Host}.


Lemma normalize_day_json (w : gmap string dayconf) dow :
  is_Some (normalize_day (weekly_json w) dow).
Proof.
  unfold normalize_day. rewrite get_weekly_json.
  destruct (get_DEFAULT_weekly (pretty dow)) as [->|[b ->]];
    destruct (w !! pretty dow) as [[en [| | |s] [| | |e]]|]; simpl; eauto.
Qed.

Lemma normalize_weekly_is_Some w dows out :
  Forall (λ dow, is_Some (normalize_day w dow)) dows →
  is_Some (normalize_weekly w dows out).
Proof.
  intros Hall. revert out.
  induction Hall as [|dow dows [c Hc] _ IH]; intros out.
  - done.
  - simpl. rewrite Hc. simpl. apply IH.
Qed.

(** *** The loop over the block dates *)

Lemma normalize_blocks_lookup b ks out m :
  normalize_blocks b ks out = Some m →
  ∀ k, m !! k =
       if decide (k ∈ ks ∧ k ≠ "__proto__") then
         match normalize_block (get b k) with
         | Some (s :: u) => Some (s :: u)
         | _ => out !! k
         end
       else out !! k.
Proof.
  revert out. induction ks as [|k0 ks IH]; intros out Hm k.
  { simpl in Hm. simplify_eq. case_decide as Hk; [|done].
    destruct Hk as [Hk _]. by apply elem_of_nil in Hk. }
  simpl in Hm.
  destruct (normalize_block (get b k0)) as [u0|] eqn:Hu0; simplify_eq/=.
  rewrite (IH _ Hm k). clear IH Hm.
  assert (match u0 with [] => out | _ :: _ => store_block k0 u0 out end !! k
          = if decide (k = k0 ∧ k ≠ "__proto__")
            then match u0 with [] => out !! k | _ :: _ => Some u0 end
            else out !! k) as ->.
  { destruct u0; [by case_decide|]. apply store_block_lookup. }
  destruct (decide (k = k0)) as [->|Hne].
  - rewrite Hu0. repeat case_decide; destruct u0; try done; set_solver.
  - repeat case_decide; try done; set_solver.
Qed.

Lemma normalize_blocks_is_Some b ks out :
  Forall (λ k, is_Some (normalize_block (get b k))) ks →
  is_Some (normalize_blocks b ks out).
Proof.
  intros Hall. revert out.
  induction Hall as [|k ks [u Hu] _ IH]; intros out; simpl.
  - done.
  - rewrite Hu. simpl. apply IH.
Qed.

Lemma normalize_block_Some bk u :
  normalize_block bk = Some u → ∃ arr, u = uniq_sorted arr.
Proof.
  unfold normalize_block. destruct bk; simpl; intros; simplify_option_eq; eauto.
Qed.

Lemma normalize_block_strings (l : list string) :
  normalize_block (VArr (VStr <$> l)) = Some (uniq_sorted l).
Proof. unfold normalize_block. by rewrite mapM_fmap_Some. Qed.

Lemma normalize_blocks_json (m : gmap string (list string)) :
  normalize_blocks (blocks_json m) (keys (blocks_json m)) ∅
  = Some (kept_blocks m).
Proof.
  destruct (normalize_blocks_is_Some (blocks_json m) (keys (blocks_json m)) ∅)
    as [out Hout].
  { apply Forall_forall. intros k _. rewrite get_blocks_json.
    destruct (m !! k); simpl; [by rewrite normalize_block_strings|done]. }
  rewrite Hout. f_equal. apply map_eq. intros k.
  rewrite (normalize_blocks_lookup _ _ _ _ Hout), lookup_empty.
  rewrite kept_blocks_lookup, get_blocks_json.
  destruct (decide (k = "__proto__")) as [->|Hp].
  { case_decide; naive_solver. }
  destruct (m !! k) as [l|] eqn:Hk; simpl.
  - rewrite normalize_block_strings.
    rewrite decide_True.
    + by destruct (uniq_sorted l).
    + split; [|done]. unfold keys, blocks_json. simpl.
      rewrite <- list_fmap_compose.
      apply list_elem_of_fmap. exists (k, l). split; [done|].
      by apply elem_of_map_to_list.
  - by case_decide.
Qed.

Lemma availability_set_block a dateISO t st :
  ∃ wk, availability_set (blockSlotServer a dateISO t true) st
        = Some (ok [],
                set_AVAILABILITY
                  {| weekly := wk;
                     blocks := kept_blocks (blocked_next (blocks a) dateISO t) |}
                  st).
Proof.
  rewrite blockSlotServer_block.
  destruct (normalize_weekly_is_Some (weekly_json (weekly a)) (seq 0 7) ∅)
    as [wk Hwk].
  { apply Forall_forall. intros dow _. apply normalize_day_json. }
  exists wk. unfold availability_set, normalizeAvailability.
  change (get (VObj [("availability", ?v)]) "availability") with v.
  unfold js_nullish.
  change (get (VObj [("weekly", ?w); ("blocks", ?b)]) "weekly") with w.
  change (get (VObj [("weekly", ?w); ("blocks", ?b)]) "blocks") with b.
  change (truthy (weekly_json ?w) && is_object (weekly_json ?w)) with true.
  change (truthy (blocks_json ?w) && is_object (blocks_json ?w)) with true.
  cbv iota. rewrite Hwk. simpl. by rewrite normalize_blocks_json.
Qed.

(** C5, as the code has it.  After a POST to /api/availability/set that is
    answered: (1) every date key of the stored blocks maps to a list that
    is not empty, has no duplicate, is sorted in ascending order and holds
    non-empty strings; (2) a key whose submitted list normalizes to the
    empty list is absent from the stored blocks; (3) the strings are stored
    as they are sent, of whatever form: under every submitted key other
    than ["__proto__"] whose value is an array, the stored list holds
    exactly the non-empty strings of that array, each element converted
    with [String]; (4) a key that was not submitted is absent. *)
Theorem stored_blocks_are_sorted_sets payload st r st' :
  availability_set payload st = Some (r, st') →
  (∀ k l, blocks (AVAILABILITY st') !! k = Some l → block_list l)
  ∧ (∀ k, normalize_block (get (submitted_blocks payload) k) = Some [] →
          blocks (AVAILABILITY st') !! k = None)
  ∧ (∀ k l, k ≠ "__proto__" →
       get (submitted_blocks payload) k = VArr l →
       ∃ arr, mapM to_String l = Some arr
         ∧ ∀ t, t ∈ default [] (blocks (AVAILABILITY st') !! k)
                ↔ t ∈ arr ∧ t ≠ "")
  ∧ (∀ k, k ∉ keys (submitted_blocks payload) →
          blocks (AVAILABILITY st') !! k = None).
Proof.
  unfold availability_set, normalizeAvailability, submitted_blocks.
  set (input := js_nullish _ _). intros Hset.
  destruct (normalize_weekly _ _ _) as [wk|]; simplify_eq/=.
  destruct (normalize_blocks _ _ _) as [bl|] eqn:Hbl; simplify_eq/=.
  pose proof (normalize_blocks_lookup _ _ _ _ Hbl) as Hlook. split_and!.
  - intros k l. rewrite Hlook, lookup_empty.
    case_decide; [|done].
    destruct (normalize_block _) as [[|s u]|] eqn:Hu; try done.
    intros [= <-]. apply normalize_block_Some in Hu as [arr Harr].
    rewrite Harr. apply uniq_sorted_block_list. by rewrite <- Harr.
  - intros k Hk. rewrite Hlook, lookup_empty. case_decide; [|done].
    destruct (truthy (get input "blocks") && is_object (get input "blocks")).
    + by rewrite Hk.
    + done.
  - intros k l Hp Hk.
    assert (truthy (get input "blocks") && is_object (get input "blocks") = true)
      as Hobj.
    { destruct (get input "blocks"); try done. }
    rewrite Hobj in Hbl, Hlook.
    assert (is_Some (normalize_block (VArr l))) as [u Hu].
    { clear Hlook. revert Hbl. generalize (∅ : gmap string (list string)).
      assert (k ∈ keys (get input "blocks")) as Hin
        by (apply get_is_key; by rewrite Hk).
      induction (keys (get input "blocks")) as [|k0 ks IH]; intros out Hbl.
      { by apply elem_of_nil in Hin. }
      simpl in Hbl.
      destruct (normalize_block (get (get input "blocks") k0)) as [u0|] eqn:H0;
        [|done].
      apply elem_of_cons in Hin as [->|Hin].
      - rewrite Hk in H0. eauto.
      - simpl in Hbl. by eapply IH. }
    unfold normalize_block in Hu.
    destruct (mapM to_String l) as [arr|] eqn:Harr; [|done].
    simpl in Hu. injection Hu as <-.
    exists arr. split; [done|]. intros t. rewrite Hlook, lookup_empty.
    rewrite decide_True by (split; [apply get_is_key; by rewrite Hk|done]).
    rewrite Hk. unfold normalize_block. rewrite Harr. simpl.
    rewrite <- elem_of_uniq_sorted.
    by destruct (uniq_sorted arr).
  - intros k Hk. rewrite Hlook, lookup_empty. case_decide as Hd; [|done].
    destruct Hd as [Hin _].
    destruct (truthy (get input "blocks") && is_object (get input "blocks")).
    + done.
    + by apply elem_of_nil in Hin.
Qed.

(** C6. Blocking a slot twice is idempotent: from every server state, for
    every date (every key that is not the name of a property all objects
    inherit) and every time string, the block button's request is answered
    200, a second one for the same date and time is answered 200 too, and
    the blocks stored after the second equal the blocks stored after the
    first. *)
Theorem blocking_twice_is_idempotent st dateISO t :
  dateISO ∉ Object_prototype_names →
  ∃ r1 st1 r2 st2,
    block_slot dateISO t st = Some (r1, st1)
    ∧ block_slot dateISO t st1 = Some (r2, st2)
    ∧ status r1 = 200 ∧ status r2 = 200
    ∧ blocks (AVAILABILITY st2) = blocks (AVAILABILITY st1).
Proof.
  intros Hdate. assert (dateISO ≠ "__proto__") as Hd.
  { intros ->. apply Hdate. unfold Object_prototype_names. set_solver. }
  unfold block_slot.
  destruct (availability_set_block (AVAILABILITY st) dateISO t st) as [wk1 H1].
  rewrite H1. eexists _, _.
  match goal with
  | |- context [availability_set (blockSlotServer (AVAILABILITY ?s) _ _ _) ?s] =>
      destruct (availability_set_block (AVAILABILITY s) dateISO t s) as [wk2 H2]
  end.
  eexists _, _. split_and!; [done|exact H2|done..|]. simpl.
  by apply blocked_twice.
Qed.

End Availability.

(** C6 on the slot 08:00 of 2026-03-02, blocked twice on a server that
    already holds blocks for that day. *)
Lemma blocking_twice_is_idempotent_witness :
  ∃ r1 st1 r2 st2,
    @block_slot Sample.host "2026-03-02" "08:00" Ex.lunch_stored = Some (r1, st1)
    ∧ @block_slot Sample.host "2026-03-02" "08:00" st1 = Some (r2, st2)
    ∧ status r1 = 200 ∧ status r2 = 200
    ∧ blocks (AVAILABILITY st2) = blocks (AVAILABILITY st1).
Proof.
  apply (@blocking_twice_is_idempotent Sample.host Ex.lunch_stored).
  apply (bool_decide_unpack _). vm_compute. exact I.
Defined.

(** C5 fails as stated: "lunch" is submitted as a blocked time and stored
    as one, and it is not of the form HH:MM. *)
Lemma any_string_is_stored_as_a_block :
  ∃ r st', @availability_set Sample.host Ex.lunch initial = Some (r, st')
    ∧ status r = 200
    ∧ blocks (AVAILABILITY st') !! "2026-03-02" = Some ["08:00"; "lunch"]
    ∧ is_HHMM "08:00" = true
    ∧ is_HHMM "lunch" = false.
Proof.
  eexists _, _. split_and!; vm_compute; reflexivity.
Qed.

(** C5, as the code has it, on that request. *)
Lemma stored_blocks_are_sorted_sets_witness :
  (∀ k l, blocks (AVAILABILITY Ex.lunch_stored) !! k = Some l → block_list l)
  ∧ (∀ k, @normalize_block Sample.host (get (submitted_blocks Ex.lunch) k)
          = Some [] →
          blocks (AVAILABILITY Ex.lunch_stored) !! k = None)
  ∧ (∀ k l, k ≠ "__proto__" →
       get (submitted_blocks Ex.lunch) k = VArr l →
       ∃ arr, mapM (@to_String Sample.host) l = Some arr
         ∧ ∀ t, t ∈ default [] (blocks (AVAILABILITY Ex.lunch_stored) !! k)
                ↔ t ∈ arr ∧ t ≠ "")
  ∧ (∀ k, k ∉ keys (submitted_blocks Ex.lunch) →
          blocks (AVAILABILITY Ex.lunch_stored) !! k = None).
Proof.
  apply (@stored_blocks_are_sorted_sets Sample.host Ex.lunch initial (ok [])).
  vm_compute. reflexivity.
Defined.

(** C9 fails on the code.  A weekly template whose Sunday start is the
    string "abc" (or, on any host, an object) is answered 200 and stored
    with start and end [NaN]: [Math.min] and [Math.max] do not clamp
    [NaN].  The stored entry is not well formed. *)
Theorem weekly_template_keeps_NaN :
  (∃ r st', @availability_set Sample.host (Ex.sunday (VStr "abc")) initial
            = Some (r, st')
     ∧ status r = 200
     ∧ weekly (AVAILABILITY st') !! "0"
       = Some {| conf_enabled := true; conf_start := NaN; conf_end := NaN |})
  ∧ (∀ host : Host,
       ∃ r st', @availability_set host (Ex.sunday (VObj [])) initial
                = Some (r, st')
         ∧ status r = 200
         ∧ weekly (AVAILABILITY st') !! "0"
           = Some {| conf_enabled := true; conf_start := NaN; conf_end := NaN |})
  ∧ ¬ well_formed_day
        {| conf_enabled := true; conf_start := NaN; conf_end := NaN |}.
Proof.
  split_and!.
  - eexists _, _. split_and!; vm_compute; reflexivity.
  - intros host. eexists _, _. split_and!; vm_compute; reflexivity.
  - intros [].
Qed.

(** ** Who may call *)



Section Access.
Context `{Host}.













End Access.


(** ** More on the schedule *)

Section ScheduleInvariants.
Context `{Host}.

Lemma apart_delete (l : list appt) i :
  StronglySorted apart l → StronglySorted apart (delete i l).
Proof.
  intros Hl. revert i. induction Hl as [|x l Hl IH Hx]; intros [|i]; simpl.
  - constructor.
  - constructor.
  - done.
  - constructor; [apply IH|]. rewrite Forall_forall in Hx |- *.
    intros y Hy. apply Hx. by eapply list_elem_of_delete_inv.
Qed.

Lemma step_keeps_pending_apart st c :
  StronglySorted apart (PENDING st) → StronglySorted apart (PENDING (step st c)).
Proof.
  intros Hst. unfold step.
  destruct (schedule_handler c st) as [[r st']|] eqn:Hc; [|done].
  destruct c as [e p|e p|p|p|p]; simpl in Hc.
  - unfold schedule_request in Hc.
    destruct (normalizeAppt e p "pending") as [a|]; simplify_eq/=.
    repeat case_match; simplify_eq/=; try done. by apply apart_push.
  - unfold schedule_book in Hc.
    destruct (normalizeAppt e p "accepted") as [a|]; simplify_eq/=.
    repeat case_match; simplify_eq/=; try done. by apply apart_filter.
  - unfold schedule_accept in Hc.
    destruct (to_String _) as [id|]; simplify_eq/=.
    repeat case_match; simplify_eq/=; try done; by apply apart_delete.
  - unfold schedule_reject in Hc.
    destruct (to_String _) as [id|]; simplify_eq/=.
    repeat case_match; simplify_eq/=; try done; by apply apart_filter.
  - unfold schedule_cancel in Hc.
    destruct (to_String _) as [id|]; simplify_eq/=.
    repeat case_match; by simplify_eq/=.
Qed.

(** X1. The pending list never holds two requests for the same start
    time: on a server started with no data files, after any sequence of
    calls to the five schedule routes, no two entries of the pending list
    have the same start time. *)
Theorem pending_never_doubled (calls : list schedule_call) :
  no_double_booking (PENDING (run calls initial)).
Proof.
  apply no_double_booking_sorted. unfold run.
  assert (StronglySorted apart (PENDING initial)) as Hinit by constructor.
  revert Hinit. generalize initial.
  induction calls as [|c calls IH]; intros st Hst; [done|].
  simpl. apply IH. by apply step_keeps_pending_apart.
Qed.

Lemma normalizeAppt_status e p s a :
  normalizeAppt e p s = Some a → appt_status a = s.
Proof. unfold normalizeAppt. intros. by simplify_option_eq. Qed.

Lemma Forall_delete_keep {A} (P : A → Prop) (l : list A) i :
  Forall P l → Forall P (delete i l).
Proof.
  intros Hl. eapply Forall_forall. intros x Hx. rewrite Forall_forall in Hl.
  apply Hl. by eapply list_elem_of_delete_inv.
Qed.

Lemma Forall_filter_keep {A} (P Q : A → Prop) `{!∀ x, Decision (Q x)} (l : list A) :
  Forall P l → Forall P (filter Q l).
Proof.
  rewrite !Forall_forall. intros Hl x [_ Hx]%list_elem_of_filter. by apply Hl.
Qed.

Lemma step_keeps_statuses st c :
  statuses_in_place st → statuses_in_place (step st c).
Proof.
  intros [Hp Hb]. unfold step.
  destruct (schedule_handler c st) as [[r st']|] eqn:Hc; [|done].
  destruct c as [e p|e p|p|p|p]; simpl in Hc.
  - unfold schedule_request in Hc.
    destruct (normalizeAppt e p "pending") as [a|] eqn:Ha; simplify_eq/=.
    apply normalizeAppt_status in Ha.
    repeat case_match; simplify_eq/=; try done.
    split; [|done]. simpl. apply Forall_app. auto.
  - unfold schedule_book in Hc.
    destruct (normalizeAppt e p "accepted") as [a|] eqn:Ha; simplify_eq/=.
    apply normalizeAppt_status in Ha.
    repeat case_match; simplify_eq/=; try done.
    split; simpl; [by apply Forall_filter_keep|apply Forall_app; auto].
  - unfold schedule_accept in Hc.
    destruct (to_String _) as [id|]; simplify_eq/=.
    repeat case_match; simplify_eq/=; try done;
      (split; simpl; [by apply Forall_delete_keep|]);
      first [done | apply Forall_app; split; [done|by repeat constructor]].
  - unfold schedule_reject in Hc.
    destruct (to_String _) as [id|]; simplify_eq/=.
    repeat case_match; simplify_eq/=; try done;
      (split; simpl; [by apply Forall_filter_keep|done]).
  - unfold schedule_cancel in Hc.
    destruct (to_String _) as [id|]; simplify_eq/=.
    repeat case_match; simplify_eq/=; try done;
      (split; simpl; [done|by apply Forall_filter_keep]).
Qed.

(** X2. The status of an entry follows the list it is in: on a server
    started with no data files, after any sequence of calls to the five
    schedule routes, every entry of the pending list has status "pending"
    and every entry of the booked list has status "accepted". *)
Theorem statuses_stay_in_place (calls : list schedule_call) :
  statuses_in_place (run calls initial).
Proof.
  unfold run.
  assert (statuses_in_place initial) as Hinit by (split; constructor).
  revert Hinit. generalize initial.
  induction calls as [|c calls IH]; intros st Hst; [done|].
  simpl. apply IH. by apply step_keeps_statuses.
Qed.

End ScheduleInvariants.

Section ScheduleRoutes.
Context `{Host}.

(** X3. POST /api/schedule/book, on a body that converts and names a
    start.  It is answered 409 and changes nothing exactly when some booked
    entry has the same start time.  Otherwise it is answered 200, the new
    entry is appended to the booked list, the pending entries whose
    [startISO] is the very same text are dropped (the others stay, in
    order), and availability, inventory and gallery are left as they
    were. *)
Theorem book_overrides_pending e payload st a :
  normalizeAppt e payload "accepted" = Some a →
  appt_startISO a ≠ "" →
  ∃ r st', schedule_book e payload st = Some (r, st') ∧
    (((∃ x, x ∈ BOOKED st ∧ same_start (appt_startISO x) (appt_startISO a))
      ∧ status r = 409 ∧ st' = st)
     ∨ ((∀ x, x ∈ BOOKED st → ¬ same_start (appt_startISO x) (appt_startISO a))
        ∧ status r = 200
        ∧ BOOKED st' = BOOKED st ++ [a]
        ∧ PENDING st'
          = filter (λ x, appt_startISO x ≠ appt_startISO a) (PENDING st)
        ∧ AVAILABILITY st' = AVAILABILITY st
        ∧ INVENTORY st' = INVENTORY st ∧ GALLERY st' = GALLERY st)).
Proof.
  intros Ha Hne. unfold schedule_book. rewrite Ha. simpl.
  apply is_nonempty_true in Hne. rewrite Hne. simpl.
  destruct (hasStart (BOOKED st) (appt_startISO a)) eqn:Hb.
  - eexists _, _. split; [done|]. left. by rewrite hasStart_spec in Hb.
  - eexists _, _. split; [done|]. right. by rewrite hasStart_false in Hb.
Qed.

Lemma findAppointmentByStart_Some st s x :
  findAppointmentByStart st s = Some x →
  ∃ y, (y ∈ PENDING st ∨ y ∈ BOOKED st) ∧ appt_startISO y = s.
Proof.
  unfold findAppointmentByStart. intros Hx.
  destruct (list_find _ _) as [[i z]|] eqn:Hfind; simplify_eq/=.
  apply list_find_Some in Hfind as (Hi & [Hs _] & _).
  apply list_elem_of_lookup_2 in Hi. unfold getAllScheduleRows in Hi.
  apply elem_of_app in Hi as [Hi|Hi];
    apply list_elem_of_fmap in Hi as (y & -> & Hy); exists y; auto.
Qed.

(** X4. A slot the calendar shows as taken cannot be requested.  If
    [findAppointmentByStart], run on the lists the server holds, finds a
    row for a [startISO] that [Date.parse] reads, then a request for that
    [startISO] is answered 409 and changes nothing. *)
Theorem shown_taken_is_refused e payload st a x :
  normalizeAppt e payload "pending" = Some a →
  appt_startISO a ≠ "" →
  is_Some (Date_parse (appt_startISO a)) →
  findAppointmentByStart st (appt_startISO a) = Some x →
  ∃ r, schedule_request e payload st = Some (r, st) ∧ status r = 409.
Proof.
  intros Ha Hne [t Ht] Hx.
  apply findAppointmentByStart_Some in Hx as (y & Hy & Hs).
  assert (start_taken st (appt_startISO a)) as Htaken.
  { exists y. split; [tauto|]. exists t. by rewrite Hs. }
  apply start_taken_spec in Htaken.
  unfold schedule_request. rewrite Ha. simpl.
  apply is_nonempty_true in Hne. rewrite Hne. simpl.
  destruct (hasStart (BOOKED st) (appt_startISO a)); [by eauto|].
  destruct Htaken as [Hb | Hp]; [done|]. rewrite Hp. eauto.
Qed.

Lemma filter_id_fresh (l : list appt) a :
  (∀ x, x ∈ l → appt_id x ≠ appt_id a) →
  filter (λ x, appt_id x ≠ appt_id a) (l ++ [a]) = l.
Proof.
  intros Hfresh. rewrite filter_app, filter_keeps_all by by apply Forall_forall.
  rewrite filter_cons_False, filter_nil by naive_solver. apply app_nil_r.
Qed.

(** X5. Rejecting undoes requesting.  After a request that was answered
    200, whose id is not empty and was not in the pending list before, a
    POST to /api/schedule/reject naming that id is answered 200 and the
    server is back in the state it had before the request. *)
Theorem request_then_reject e payload st r st1 a payload' :
  normalizeAppt e payload "pending" = Some a →
  schedule_request e payload st = Some (r, st1) →
  status r = 200 →
  appt_id a ≠ "" →
  (∀ x, x ∈ PENDING st → appt_id x ≠ appt_id a) →
  body_id payload' = Some (appt_id a) →
  schedule_reject payload' st1 = Some (ok [], st).
Proof.
  intros Ha Hreq Hr Hne Hfresh Hid. unfold schedule_request in Hreq.
  rewrite Ha in Hreq. simpl in Hreq.
  repeat case_match; simplify_eq/=.
  unfold schedule_reject. unfold body_id in Hid. rewrite Hid. simpl.
  apply is_nonempty_true in Hne. rewrite Hne. simpl.
  rewrite filter_id_fresh by done.
  rewrite length_app. simpl.
  destruct (Nat.eqb_spec (length (PENDING st)) (length (PENDING st) + 1)); [lia|].
  by destruct st.
Qed.

(** X6. Accepting a request just made books it.  After a request that
    was answered 200, whose id is not empty and was not in the pending list
    before, a POST to /api/schedule/accept naming that id is answered 200
    with the id; the pending list is as before the request and the booked
    list has gained the requested appointment, with status "accepted", at
    its end. *)
Theorem request_then_accept e payload st r st1 a payload' :
  normalizeAppt e payload "pending" = Some a →
  schedule_request e payload st = Some (r, st1) →
  status r = 200 →
  appt_id a ≠ "" →
  (∀ x, x ∈ PENDING st → appt_id x ≠ appt_id a) →
  body_id payload' = Some (appt_id a) →
  schedule_accept payload' st1
  = Some (ok [("id", VStr (appt_id a))],
          set_BOOKED (BOOKED st ++ [with_status a "accepted"]) st).
Proof.
  intros Ha Hreq Hr Hne Hfresh Hid. unfold schedule_request in Hreq.
  rewrite Ha in Hreq. simpl in Hreq.
  destruct (is_nonempty (appt_startISO a)); simplify_eq/=.
  destruct (hasStart (BOOKED st) (appt_startISO a)) eqn:Hb; simplify_eq/=.
  destruct (hasStart (PENDING st) (appt_startISO a)) eqn:Hp; simplify_eq/=.
  unfold schedule_accept. unfold body_id in Hid. rewrite Hid. simpl.
  apply is_nonempty_true in Hne. rewrite Hne. simpl.
  assert (list_find (λ x, appt_id x = appt_id a) (PENDING st ++ [a])
          = Some (length (PENDING st), a)) as ->.
  { apply list_find_Some. split_and!.
    - by rewrite lookup_app_r, Nat.sub_diag.
    - done.
    - intros j y Hy Hj. rewrite lookup_app_l in Hy by done.
      apply Hfresh. by eapply list_elem_of_lookup_2. }
  rewrite Hb. f_equal. f_equal.
  assert (delete (length (PENDING st)) (PENDING st ++ [a]) = PENDING st) as ->.
  { rewrite delete_middle. apply app_nil_r. }
  by destruct st.
Qed.

(** X7. The client's [deleteAppt].  It posts nothing exactly when no
    pending and no booked entry has the id.  For an id that is not empty,
    the route it picks answers 200 and removes every entry with that id
    from the list the entry was found in: the pending list if some pending
    entry has the id, the booked list otherwise. *)
Theorem deleteAppt_removes st id :
  (deleteAppt st id = None
   ↔ ∀ x, x ∈ PENDING st ∨ x ∈ BOOKED st → appt_id x ≠ id)
  ∧ (id ≠ "" → ∀ u, deleteAppt st id = Some u →
     ((∃ x, x ∈ PENDING st ∧ appt_id x = id)
      ∧ u = "/api/schedule/reject"
      ∧ schedule_reject (VObj [("id", VStr id)]) st
        = Some (ok [], set_PENDING (filter (λ x, appt_id x ≠ id) (PENDING st)) st))
     ∨ ((∀ x, x ∈ PENDING st → appt_id x ≠ id)
        ∧ (∃ x, x ∈ BOOKED st ∧ appt_id x = id)
        ∧ u = "/api/schedule/cancel"
        ∧ schedule_cancel (VObj [("id", VStr id)]) st
          = Some (ok [], set_BOOKED (filter (λ x, appt_id x ≠ id) (BOOKED st)) st))).
Proof.
  unfold deleteAppt. split.
  - case_bool_decide as Hp; [|case_bool_decide as Hb];
      rewrite ?Exists_exists in *.
    + split; [done|]. intros Hall. destruct Hp as (x & Hx & Hid).
      by destruct (Hall x (or_introl Hx)).
    + split; [done|]. intros Hall. destruct Hb as (x & Hx & Hid).
      by destruct (Hall x (or_intror Hx)).
    + split; [|done]. intros _ x [Hx|Hx] Hid; naive_solver.
  - intros Hne u Hu. apply is_nonempty_true in Hne.
    case_bool_decide as Hp.
    + left. simplify_eq. apply Exists_exists in Hp. split; [done|]. split; [done|].
      unfold schedule_reject. simpl. unfold js_or. simpl. rewrite Hne. simpl.
      rewrite Hne. simpl.
      pose proof (remove_by_id (PENDING st) id) as Hcases.
      destruct (Nat.eqb (length (filter (λ x, appt_id x ≠ id) (PENDING st)))
                  (length (PENDING st))); [|done].
      destruct Hcases as [_ Hall]. destruct Hp as (x & Hx & Hid). by destruct (Hall x Hx).
    + case_bool_decide as Hb; [|done]. right. simplify_eq.
      apply Exists_exists in Hb. rewrite Exists_exists in Hp.
      split; [naive_solver|]. split; [done|]. split; [done|].
      unfold schedule_cancel. simpl. unfold js_or. simpl. rewrite Hne. simpl.
      rewrite Hne. simpl.
      pose proof (remove_by_id (BOOKED st) id) as Hcases.
      destruct (Nat.eqb (length (filter (λ x, appt_id x ≠ id) (BOOKED st)))
                  (length (BOOKED st))); [|done].
      destruct Hcases as [_ Hall]. destruct Hb as (x & Hx & Hid). by destruct (Hall x Hx).
Qed.

End ScheduleRoutes.

Section Shown.
Context `{Host}.

Lemma findAppointmentByStart_first st s (j : nat) y :
  getAllScheduleRows st !! j = Some y → appt_startISO y = s →
  appt_status y = "pending" ∨ appt_status y = "accepted" →
  ∃ i x, i ≤ j ∧ getAllScheduleRows st !! i = Some x
         ∧ findAppointmentByStart st s = Some x ∧ appt_startISO x = s.
Proof.
  intros Hj Hs Hst. unfold findAppointmentByStart.
  destruct (list_find _ _) as [[i x]|] eqn:Hfind.
  - apply list_find_Some in Hfind as (Hi & [Hx _] & Hfirst).
    exists i, x. split_and!; try done.
    destruct (decide (i ≤ j)) as [|Hgt]; [done|].
    destruct (Hfirst j y Hj); [lia|done].
  - apply list_find_None in Hfind. rewrite Forall_forall in Hfind.
    destruct (Hfind y); [by eapply list_elem_of_lookup_2|done].
Qed.

(** X22. A request that was answered 200 shows in the calendar: on the
    lists the server then holds, [findAppointmentByStart] finds a row for
    the requested [startISO], and the row it finds has status "pending"
    (the calendar writes "Awaiting Confirmation"). *)
Theorem requested_slot_is_shown e payload st r st1 :
  schedule_request e payload st = Some (r, st1) → status r = 200 →
  ∃ a x, normalizeAppt e payload "pending" = Some a
         ∧ findAppointmentByStart st1 (appt_startISO a) = Some x
         ∧ appt_startISO x = appt_startISO a ∧ appt_status x = "pending".
Proof.
  unfold schedule_request.
  destruct (normalizeAppt e payload "pending") as [a|] eqn:Ha; [|done].
  simpl. intros Hreq Hr. exists a.
  pose proof (normalizeAppt_status _ _ _ _ Ha) as Hst.
  repeat case_match; simplify_eq/=.
  destruct (findAppointmentByStart_first
              (set_PENDING (PENDING st ++ [a]) st) (appt_startISO a)
              (length (PENDING st)) (with_status a "pending"))
    as (i & x & Hi & Hx & Hfind & Hs); [|done|by left|].
  { unfold getAllScheduleRows. simpl.
    rewrite lookup_app_l by (rewrite length_fmap, length_app; simpl; lia).
    rewrite list_lookup_fmap, lookup_app_r, Nat.sub_diag by done. done. }
  exists x. split_and!; [done..|].
  unfold getAllScheduleRows in Hx. simpl in Hx.
  rewrite lookup_app_l in Hx by (rewrite length_fmap, length_app; simpl; lia).
  apply list_lookup_fmap_Some in Hx as (z & -> & _). done.
Qed.

(** X23. A booking that was answered 200 shows in the calendar: on the
    lists the server then holds, [findAppointmentByStart] finds a row for
    the booked [startISO], and the row it finds has status "accepted" (the
    calendar writes "Reserved"). *)
Theorem booked_slot_is_shown e payload st r st1 :
  schedule_book e payload st = Some (r, st1) → status r = 200 →
  ∃ a x, normalizeAppt e payload "accepted" = Some a
         ∧ findAppointmentByStart st1 (appt_startISO a) = Some x
         ∧ appt_startISO x = appt_startISO a ∧ appt_status x = "accepted".
Proof.
  unfold schedule_book.
  destruct (normalizeAppt e payload "accepted") as [a|] eqn:Ha; [|done].
  simpl. intros Hbook Hr. exists a.
  pose proof (normalizeAppt_status _ _ _ _ Ha) as Hst.
  repeat case_match; simplify_eq/=.
  set (pending := filter _ (PENDING st)).
  destruct (findAppointmentByStart_first
              (set_BOOKED (BOOKED st ++ [a]) (set_PENDING pending st))
              (appt_startISO a)
              (length pending + length (BOOKED st)) (with_status a "accepted"))
    as (i & x & Hi & Hx & Hfind & Hs); [|done|by right|].
  { unfold getAllScheduleRows. simpl.
    rewrite lookup_app_r by (rewrite length_fmap; lia).
    rewrite length_fmap, list_lookup_fmap.
    replace (length pending + length (BOOKED st) - length pending)
      with (length (BOOKED st)) by lia.
    rewrite lookup_app_r, Nat.sub_diag by done. done. }
  exists x. split_and!; [done..|].
  unfold getAllScheduleRows in Hx. simpl in Hx.
  apply lookup_app_Some in Hx as [Hx|[_ Hx]].
  - apply list_lookup_fmap_Some in Hx as (z & -> & Hz).
    apply list_elem_of_lookup_2, list_elem_of_filter in Hz as [Hne _].
    by destruct Hne.
  - apply list_lookup_fmap_Some in Hx as (z & -> & _). done.
Qed.

End Shown.

(** ** Inventory and gallery *)

Lemma list_find_insert_same {A} (P : A → Prop) `{!∀ x, Decision (P x)}
    (l : list A) i x y :
  list_find P l = Some (i, x) → P y → list_find P (<[i := y]> l) = Some (i, y).
Proof.
  intros (Hi & Hx & Hfirst)%list_find_Some Hy. apply list_find_Some.
  split_and!.
  - apply list_lookup_insert_eq. by eapply lookup_lt_Some.
  - done.
  - intros j z Hj Hlt. rewrite list_lookup_insert_ne in Hj by lia. by eapply Hfirst.
Qed.

Lemma list_find_snoc_fresh {A} (P : A → Prop) `{!∀ x, Decision (P x)}
    (l : list A) y :
  list_find P l = None → P y → list_find P (l ++ [y]) = Some (length l, y).
Proof.
  intros Hnone%list_find_None Hy. apply list_find_Some. split_and!.
  - by rewrite lookup_app_r, Nat.sub_diag.
  - done.
  - intros j z Hj Hlt. rewrite lookup_app_l in Hj by done.
    rewrite Forall_forall in Hnone. apply Hnone. by eapply list_elem_of_lookup_2.
Qed.

Lemma delete_unique_is_filter {A} (f : A → string) (l : list A) id i x :
  NoDup (f <$> l) → l !! i = Some x → f x = id →
  delete i l = filter (λ y, f y ≠ id) l.
Proof.
  revert i. induction l as [|y l IH]; intros i Hnd Hi Hx; [done|].
  rewrite fmap_cons in Hnd. apply NoDup_cons in Hnd as [Hy Hnd].
  destruct i as [|i]; simplify_eq/=.
  - rewrite filter_cons_False by naive_solver.
    symmetry. apply filter_keeps_all, Forall_forall. intros z Hz Heq.
    apply Hy. rewrite <- Heq. apply list_elem_of_fmap. eauto.
  - rewrite filter_cons_True.
    + f_equal. by eapply IH.
    + intros Heq. apply Hy. rewrite Heq. apply list_elem_of_fmap.
      exists x. split; [done|]. by eapply list_elem_of_lookup_2.
Qed.

Lemma js_or_truthy x y : truthy x = true → js_or x y = x.
Proof. unfold js_or. by intros ->. Qed.

Section Inventory.
Context `{Host}.

Lemma upsert_result e payload st r st' :
  inventory_upsert e payload st = Some (r, st') →
  ∃ it, r = ok [("item", item_json it)]
    ∧ st' = set_INVENTORY
              (match list_find (λ x, item_id x = item_id it) (INVENTORY st) with
               | Some (idx, _) => <[idx := it]> (INVENTORY st)
               | None => INVENTORY st ++ [it]
               end) st.
Proof.
  unfold inventory_upsert. intros Hup.
  destruct (normalizeInventoryItem _ _) as [it0|]; simplify_eq/=.
  match type of Hup with
  | (?m ≫= _) = _ => destruct m as [it|] eqn:Hit
  end; simplify_eq/=.
  by exists it.
Qed.

Lemma upsert_keeps_unique e payload st r st' :
  unique_item_ids st → inventory_upsert e payload st = Some (r, st') →
  unique_item_ids st'.
Proof.
  unfold unique_item_ids. intros Hnd (it & -> & ->)%upsert_result. simpl.
  destruct (list_find _ _) as [[idx x]|] eqn:Hfind.
  - apply list_find_Some in Hfind as (Hidx & Hid & _).
    rewrite list_fmap_insert, list_insert_id; [done|].
    rewrite list_lookup_fmap, Hidx. simpl. by rewrite Hid.
  - apply list_find_None in Hfind. rewrite fmap_app. simpl.
    apply NoDup_app. split_and!; [done| |apply NoDup_singleton].
    intros id (x & Hid & Hx)%list_elem_of_fmap Hit%list_elem_of_singleton.
    rewrite Forall_forall in Hfind. apply (Hfind x Hx). congruence.
Qed.

Lemma delete_keeps_unique payload st r st' :
  unique_item_ids st → inventory_delete payload st = Some (r, st') →
  unique_item_ids st'.
Proof.
  unfold unique_item_ids, inventory_delete. intros Hnd Hdel.
  destruct (to_String _) as [id|]; simplify_eq/=.
  repeat case_match; simplify_eq/=; try done.
  rewrite list_fmap_delete. eapply sublist_NoDup; [done|]. apply sublist_delete.
Qed.

(** X8. Inventory ids stay unique: on a server started with no data
    files, after any sequence of calls to /api/inventory/upsert and
    /api/inventory/delete, no two inventory items have the same id. *)
Theorem inventory_ids_stay_unique (calls : list inventory_call) :
  unique_item_ids (inventory_run calls initial).
Proof.
  unfold inventory_run.
  assert (unique_item_ids initial) as Hinit by apply NoDup_nil_2.
  revert Hinit. generalize initial.
  induction calls as [|c calls IH]; intros st Hst; [done|].
  simpl. apply IH. unfold inventory_step.
  destruct (inventory_handler c st) as [[r st']|] eqn:Hc; [|done].
  destruct c; simpl in Hc;
    [by eapply upsert_keeps_unique|by eapply delete_keeps_unique].
Qed.

(** X9. What an upsert stores.  On an inventory with unique ids, an
    upsert that is answered returns the item it stored; afterwards that
    item is in the inventory and is the only one with its id, the items
    with other ids are the ones there were before, the inventory has grown
    by one exactly when the id was new, and the schedule, the availability
    and the gallery are left as they were. *)
Theorem upsert_stores_the_item e payload st r st' :
  unique_item_ids st →
  inventory_upsert e payload st = Some (r, st') →
  ∃ it, r = ok [("item", item_json it)]
    ∧ it ∈ INVENTORY st'
    ∧ (∀ x, x ∈ INVENTORY st' → item_id x = item_id it → x = it)
    ∧ (∀ x, item_id x ≠ item_id it → x ∈ INVENTORY st' ↔ x ∈ INVENTORY st)
    ∧ length (INVENTORY st')
      = (if bool_decide (item_id it ∈ item_id <$> INVENTORY st)
         then length (INVENTORY st) else S (length (INVENTORY st)))
    ∧ BOOKED st' = BOOKED st ∧ PENDING st' = PENDING st
    ∧ AVAILABILITY st' = AVAILABILITY st ∧ GALLERY st' = GALLERY st.
Proof.
  intros Hnd Hup. pose proof (upsert_keeps_unique _ _ _ _ _ Hnd Hup) as Hnd'.
  apply upsert_result in Hup as (it & -> & ->). exists it.
  unfold unique_item_ids in *. simpl in *.
  destruct (list_find _ _) as [[idx x]|] eqn:Hfind.
  - pose proof Hfind as (Hidx & Hid & _)%list_find_Some.
    assert (idx < length (INVENTORY st)) as Hlt by by eapply lookup_lt_Some.
    assert (it ∈ <[idx:=it]> (INVENTORY st)) as Hin.
    { eapply list_elem_of_lookup_2. by apply list_lookup_insert_eq. }
    split_and!; try done.
    + intros y Hy Hyid. apply list_elem_of_lookup in Hy as [j Hj].
      apply list_elem_of_lookup in Hin as [i Hi].
      assert (j = i) as ->; [|congruence].
      apply (NoDup_lookup _ j i (item_id it) Hnd');
        rewrite list_lookup_fmap; [rewrite Hj|rewrite Hi]; simpl; congruence.
    + intros y Hy. rewrite !list_elem_of_lookup. split; intros [j Hj].
      * destruct (decide (j = idx)) as [->|Hne].
        { rewrite list_lookup_insert_eq in Hj by done. congruence. }
        rewrite list_lookup_insert_ne in Hj by done. eauto.
      * destruct (decide (j = idx)) as [->|Hne]; [congruence|].
        exists j. by rewrite list_lookup_insert_ne.
    + rewrite length_insert. rewrite bool_decide_true; [done|].
      apply list_elem_of_fmap. exists x. split; [done|].
      by eapply list_elem_of_lookup_2.
  - apply list_find_None in Hfind. rewrite Forall_forall in Hfind.
    split_and!; try done.
    + apply elem_of_app. right. by apply list_elem_of_singleton.
    + intros y [Hy| ->%list_elem_of_singleton]%elem_of_app Hyid; [|done].
      by destruct (Hfind y Hy).
    + intros y Hy. rewrite elem_of_app, list_elem_of_singleton. naive_solver.
    + rewrite length_app. simpl. rewrite bool_decide_false; [lia|].
      intros (y & Hyid & Hy)%list_elem_of_fmap. by destruct (Hfind y Hy).
Qed.


(** X10. An upsert that names its id and uploads no image is idempotent:
    sent a second time (whatever [makeId] and the clock give then), it gets
    the same answer and leaves the state as the first left it. *)
Theorem upsert_twice_is_once e1 e2 payload st r st1 :
  truthy (get (js_nullish (get payload "item") payload) "id") = true →
  truthy (body_image payload) = false →
  inventory_upsert e1 payload st = Some (r, st1) →
  inventory_upsert e2 payload st1 = Some (r, st1).
Proof.
  intros Hid Himg.
  assert (normalizeInventoryItem e2 (js_nullish (get payload "item") payload)
          = normalizeInventoryItem e1 (js_nullish (get payload "item") payload))
    as Hnorm.
  { unfold normalizeInventoryItem. by rewrite !(js_or_truthy _ _ Hid). }
  unfold inventory_upsert. fold (body_image payload). rewrite Himg, Hnorm.
  destruct (normalizeInventoryItem e1 _) as [it0|]; [|done]. simpl.
  set (oit := if negb _ then _ else _). clearbody oit.
  destruct oit as [it|]; [|done]. simpl.
  intros Hup. simplify_eq. f_equal. f_equal.
  destruct st as [bk pd av inv gal]. unfold set_INVENTORY. simpl. f_equal.
  destruct (list_find _ inv) as [[idx x]|] eqn:Hfind.
  - rewrite (list_find_insert_same _ _ _ _ _ Hfind eq_refl).
    by rewrite list_insert_insert_eq.
  - rewrite (list_find_snoc_fresh _ _ _ Hfind eq_refl).
    rewrite insert_app_r_alt, Nat.sub_diag by done. done.
Qed.

(** X11. What /api/inventory/delete does for an id that is not empty, on
    an inventory with unique ids: 404 and no change when no item has the
    id; otherwise 200, and the inventory afterwards is the one before
    without the items of that id. *)
Theorem inventory_delete_removes payload st id :
  body_id payload = Some id → id ≠ "" → unique_item_ids st →
  inventory_delete payload st
  = if bool_decide (id ∈ item_id <$> INVENTORY st)
    then Some (ok [], set_INVENTORY
                        (filter (λ x, item_id x ≠ id) (INVENTORY st)) st)
    else Some (failure 404 "Not found", st).
Proof.
  unfold body_id, inventory_delete, unique_item_ids. intros -> Hne Hnd. simpl.
  apply is_nonempty_true in Hne. rewrite Hne. simpl.
  destruct (list_find _ _) as [[idx x]|] eqn:Hfind.
  - pose proof Hfind as (Hidx & Hid & _)%list_find_Some.
    rewrite bool_decide_true.
    + by rewrite (delete_unique_is_filter item_id _ id idx x).
    + apply list_elem_of_fmap. exists x. split; [done|].
      by eapply list_elem_of_lookup_2.
  - apply list_find_None in Hfind. rewrite Forall_forall in Hfind.
    rewrite bool_decide_false; [done|].
    intros (y & Hyid & Hy)%list_elem_of_fmap. by destruct (Hfind y Hy).
Qed.

(** X12. A photo added to the gallery goes to the front under the id
    [makeId] gave, and deleting that id (not empty) right away puts the
    server back in the state it had before the photo was added. *)
Theorem gallery_add_then_delete e payload st r st1 :
  gallery_add e payload st = Some (r, st1) → status r = 200 →
  makeId e ≠ "" →
  (∃ ph, r = ok [("photo", photo_json ph)] ∧ photo_id ph = makeId e
         ∧ GALLERY st1 = ph :: GALLERY st)
  ∧ gallery_delete (VObj [("id", VStr (makeId e))]) st1 = Some (ok [], st).
Proof.
  unfold gallery_add. intros Hadd Hok Hid.
  destruct (to_String _) as [caption|]; simplify_eq/=.
  destruct (truthy _); simpl in Hadd; [|by simplify_eq/=].
  destruct (saveUploadedImage _ _ _ _ _) as [p|]; simplify_eq/=.
  split; [eauto|].
  unfold gallery_delete, get, js_or. simpl.
  apply is_nonempty_true in Hid. rewrite !Hid. simpl.
  destruct (decide (makeId e = makeId e)); [|done]. rewrite Hid. simpl.
  by destruct st.
Qed.

End Inventory.

Section StoredItems.
Context `{Host}.

Lemma normalizeInventoryItem_normal e input it :
  normalizeInventoryItem e input = Some it →
  (item_status it = "available" ∨ item_status it = "unavailable")
  ∧ String.prefix "/uploads/" (item_imagePath it) = true.
Proof.
  unfold normalizeInventoryItem. intros Hn. simplify_option_eq. split.
  - destruct (String.eqb _ "available"); auto.
  - simpl. set (p1 := if is_nonempty _ then _ else _).
    destruct (String.prefix "/uploads/" p1) eqn:Hpre; [exact Hpre|reflexivity].
Qed.

(** X24. Every item an upsert stores is in normal form: when
    [saveUploadedImage] returns paths under [/uploads/] only (as each of its
    [return]s does), the item an answered upsert stores has status
    "available" or "unavailable" and an image path that starts with
    [/uploads/], whatever the body said. *)
Theorem stored_item_is_normal e payload st r st' :
  uploads_only e →
  inventory_upsert e payload st = Some (r, st') →
  ∃ it, r = ok [("item", item_json it)] ∧ it ∈ INVENTORY st'
    ∧ (item_status it = "available" ∨ item_status it = "unavailable")
    ∧ String.prefix "/uploads/" (item_imagePath it) = true.
Proof.
  intros Hup Hups. unfold inventory_upsert in Hups.
  destruct (normalizeInventoryItem _ _) as [it0|] eqn:Hn; [|done].
  apply normalizeInventoryItem_normal in Hn as [Hs Hp].
  simpl in Hups. destruct (truthy _).
  - destruct (saveUploadedImage _ _ _ _ _) as [p|] eqn:Hsave; [|done].
    simpl in Hups. injection Hups as <- <-.
    exists (with_imagePath it0 p). split; [reflexivity|].
    split; [exact (upserted_elem_of (with_imagePath it0 p) (INVENTORY st))|].
    split; [done|]. simpl. by eapply Hup.
  - destruct (negb _); simpl in Hups; injection Hups as <- <-.
    + exists (with_imagePath it0 DEFAULT_IMAGE_PATH). split; [reflexivity|].
      split; [|done].
      exact (upserted_elem_of (with_imagePath it0 DEFAULT_IMAGE_PATH)
               (INVENTORY st)).
    + exists it0. split; [reflexivity|].
      split; [exact (upserted_elem_of it0 (INVENTORY st))|done].
Qed.

End StoredItems.

(** ** The block and unblock buttons *)

Lemma elem_of_kept_blocks m d t :
  t ∈ default [] (kept_blocks m !! d)
  ↔ d ≠ "__proto__" ∧ t ≠ "" ∧ t ∈ default [] (m !! d).
Proof.
  rewrite kept_blocks_lookup. case_decide as Hd.
  { simpl. rewrite elem_of_nil. naive_solver. }
  destruct (m !! d) as [l|]; simpl.
  - transitivity (t ∈ uniq_sorted l).
    + by destruct (uniq_sorted l).
    + rewrite elem_of_uniq_sorted. naive_solver.
  - rewrite elem_of_nil. naive_solver.
Qed.


(** Two tables the server keeps are equal when they block the same slots. *)
Lemma kept_blocks_ext m1 m2 :
  (∀ d t, t ∈ default [] (kept_blocks m1 !! d)
          ↔ t ∈ default [] (kept_blocks m2 !! d)) →
  kept_blocks m1 = kept_blocks m2.
Proof.
  intros Hext. apply map_eq. intros d. specialize (Hext d).
  destruct (kept_blocks m1 !! d) as [u1|] eqn:H1,
           (kept_blocks m2 !! d) as [u2|] eqn:H2; simpl in Hext.
  - apply kept_blocks_values in H1 as [_ <-], H2 as [_ <-].
    f_equal. apply uniq_sorted_ext. intros x _. apply Hext.
  - apply kept_blocks_values in H1 as [Hne _]. destruct u1 as [|s u1]; [done|].
    exfalso. eapply elem_of_nil, Hext. left.
  - apply kept_blocks_values in H2 as [Hne _]. destruct u2 as [|s u2]; [done|].
    exfalso. eapply elem_of_nil, Hext. left.
  - done.
Qed.

Lemma pad2_nonempty n : pad2 n ≠ "".
Proof.
  unfold pad2. destruct (pretty n) as [|c s] eqn:Hn.
  - done.
  - by destruct (_ <? _)%nat.
Qed.

Lemma slot_time_nonempty hh mm : slot_time hh mm ≠ "".
Proof.
  unfold slot_time. pose proof (pad2_nonempty hh).
  by destruct (pad2 hh).
Qed.

(** The table [blockSlotServer] posts when asked to unblock. *)
Lemma blockSlotServer_unblock a dateISO t :
  ∃ m, blockSlotServer a dateISO t false
       = VObj [("availability",
                VObj [("weekly", weekly_json (weekly a));
                      ("blocks", blocks_json m)])]
    ∧ ∀ d' t', t' ∈ default [] (m !! d')
               ↔ t' ∈ default [] (blocks a !! d') ∧ ¬ (d' = dateISO ∧ t' = t).
Proof.
  unfold blockSlotServer. simpl. eexists. split; [reflexivity|].
  intros d' t'. case_bool_decide as Hhas.
  - set (arr := default [] (blocks a !! dateISO)) in *.
    assert (∀ x, x ∈ filter (λ x, x ≠ t) arr ↔ x ∈ arr ∧ x ≠ t) as Hf.
    { intros x. rewrite list_elem_of_filter. naive_solver. }
    destruct (decide (d' = dateISO)) as [->|Hne].
    + fold arr. destruct (filter _ arr) as [|s f] eqn:Hfil.
      * rewrite lookup_delete_eq. simpl. rewrite elem_of_nil.
        specialize (Hf t'). rewrite elem_of_nil in Hf. naive_solver.
      * rewrite lookup_insert_eq. simpl. rewrite Hf. naive_solver.
    + destruct (filter _ arr) as [|s f].
      * rewrite lookup_delete_ne by done. naive_solver.
      * rewrite lookup_insert_ne by done. naive_solver.
  - split; [|naive_solver]. intros Hin. split; [done|].
    intros [-> ->]. done.
Qed.

Section Blocks.
Context `{Host}.

(** What the server answers and stores when it is sent a weekly template
    and a table of string lists. *)
Lemma availability_set_body wv wk m st :
  truthy wv && is_object wv = true →
  normalize_weekly wv (seq 0 7) ∅ = Some wk →
  availability_set
    (VObj [("availability", VObj [("weekly", wv); ("blocks", blocks_json m)])])
    st
  = Some (ok [], set_AVAILABILITY {| weekly := wk; blocks := kept_blocks m |} st).
Proof.
  intros Hwv Hwk. unfold availability_set, normalizeAvailability.
  change (get (VObj [("availability", ?v)]) "availability") with v.
  unfold js_nullish.
  change (get (VObj [("weekly", ?w); ("blocks", ?b)]) "weekly") with w.
  change (get (VObj [("weekly", ?w); ("blocks", ?b)]) "blocks") with b.
  rewrite Hwv.
  change (truthy (blocks_json ?w) && is_object (blocks_json ?w)) with true.
  cbv iota. rewrite Hwk. simpl. by rewrite normalize_blocks_json.
Qed.

Lemma availability_set_json w m st :
  ∃ wk, normalize_weekly (weekly_json w) (seq 0 7) ∅ = Some wk
    ∧ availability_set
        (VObj [("availability",
                VObj [("weekly", weekly_json w); ("blocks", blocks_json m)])])
        st
      = Some (ok [],
              set_AVAILABILITY {| weekly := wk; blocks := kept_blocks m |} st).
Proof.
  destruct (normalize_weekly_is_Some (weekly_json w) (seq 0 7) ∅) as [wk Hwk].
  { apply Forall_forall. intros dow _. apply normalize_day_json. }
  exists wk. split; [done|]. by apply availability_set_body.
Qed.

Lemma proto_not_inherited d : d ∉ Object_prototype_names → d ≠ "__proto__".
Proof. intros Hd ->. apply Hd. unfold Object_prototype_names. set_solver. Qed.

Lemma elem_of_blocked_next m d t d' t' :
  t' ∈ default [] (blocked_next m d t !! d')
  ↔ t' ∈ default [] (m !! d') ∨ (d' = d ∧ t' = t).
Proof.
  unfold blocked_next. case_bool_decide as Hhas.
  - naive_solver.
  - destruct (decide (d' = d)) as [->|Hne].
    + rewrite lookup_insert_eq. simpl. unfold sort_strings.
      rewrite merge_sort_Permutation, elem_of_app, list_elem_of_singleton.
      naive_solver.
    + rewrite lookup_insert_ne by done. naive_solver.
Qed.

(** X13. The block button adds exactly one slot.  For every date (every
    key that is not the name of a property all objects inherit) and every
    time, the request [blockSlotServer] sends to block is answered 200, and
    afterwards a time is blocked on a date exactly when it is not the empty
    string, the date is not ["__proto__"], and it was blocked on that date
    before or is the slot just blocked. *)
Theorem block_adds_the_slot st dateISO t :
  dateISO ∉ Object_prototype_names →
  ∃ r st1,
    block_slot dateISO t st = Some (r, st1) ∧ status r = 200
    ∧ ∀ d' t',
        t' ∈ default [] (blocks (AVAILABILITY st1) !! d')
        ↔ d' ≠ "__proto__" ∧ t' ≠ ""
          ∧ (t' ∈ default [] (blocks (AVAILABILITY st) !! d')
             ∨ (d' = dateISO ∧ t' = t)).
Proof.
  intros Hd%proto_not_inherited. unfold block_slot.
  rewrite blockSlotServer_block.
  destruct (availability_set_json (weekly (AVAILABILITY st))
              (blocked_next (blocks (AVAILABILITY st)) dateISO t) st)
    as (wk & _ & ->).
  eexists _, _. split_and!; [done..|]. intros d' t'. simpl.
  by rewrite elem_of_kept_blocks, elem_of_blocked_next.
Qed.

(** X14. The unblock button removes exactly one slot.  The request
    [blockSlotServer] sends to unblock is answered 200, and afterwards a
    time is blocked on a date exactly when it is not the empty string, the
    date is not ["__proto__"], it was blocked on that date before and it is
    not the slot just unblocked. *)
Theorem unblock_removes_the_slot st dateISO t :
  dateISO ∉ Object_prototype_names →
  ∃ r st1,
    unblock_slot dateISO t st = Some (r, st1) ∧ status r = 200
    ∧ ∀ d' t',
        t' ∈ default [] (blocks (AVAILABILITY st1) !! d')
        ↔ d' ≠ "__proto__" ∧ t' ≠ ""
          ∧ t' ∈ default [] (blocks (AVAILABILITY st) !! d')
          ∧ ¬ (d' = dateISO ∧ t' = t).
Proof.
  intros _. unfold unblock_slot.
  destruct (blockSlotServer_unblock (AVAILABILITY st) dateISO t)
    as (m & -> & Hm).
  destruct (availability_set_json (weekly (AVAILABILITY st)) m st)
    as (wk & _ & ->).
  eexists _, _. split_and!; [done..|]. intros d' t'. simpl.
  by rewrite elem_of_kept_blocks, Hm.
Qed.

(** X15. The calendar shows what the buttons did: once the server has
    stored the block request for the slot at hour [hh] and minute [mm] of a
    date, [isBlockedServer] answers true for that date, hour and minute on
    the availability stored; once it has stored the unblock request, it
    answers false. *)
Theorem calendar_shows_the_toggle st dateISO hh mm :
  dateISO ∉ Object_prototype_names →
  (∃ r st1, block_slot dateISO (slot_time hh mm) st = Some (r, st1)
            ∧ isBlockedServer (AVAILABILITY st1) dateISO hh mm = true)
  ∧ (∃ r st1, unblock_slot dateISO (slot_time hh mm) st = Some (r, st1)
              ∧ isBlockedServer (AVAILABILITY st1) dateISO hh mm = false).
Proof.
  intros Hd%proto_not_inherited. pose proof (slot_time_nonempty hh mm) as Ht.
  unfold block_slot, unblock_slot, isBlockedServer. split.
  - rewrite blockSlotServer_block.
    destruct (availability_set_json (weekly (AVAILABILITY st))
                (blocked_next (blocks (AVAILABILITY st)) dateISO
                   (slot_time hh mm)) st)
      as (wk & _ & ->).
    eexists _, _. split; [done|]. simpl. apply bool_decide_eq_true.
    rewrite elem_of_kept_blocks, elem_of_blocked_next. naive_solver.
  - destruct (blockSlotServer_unblock (AVAILABILITY st) dateISO
                (slot_time hh mm)) as (m & -> & Hm).
    destruct (availability_set_json (weekly (AVAILABILITY st)) m st)
      as (wk & _ & ->).
    eexists _, _. split; [done|]. simpl. apply bool_decide_eq_false.
    rewrite elem_of_kept_blocks, Hm. naive_solver.
Qed.

(** X16. Unblocking undoes blocking.  When the stored blocks are as the
    server normalizes them, and a slot is not blocked, blocking it and then
    unblocking it are both answered and the stored blocks are again what
    they were. *)
Theorem block_then_unblock_restores st dateISO t :
  dateISO ∉ Object_prototype_names →
  kept_blocks (blocks (AVAILABILITY st)) = blocks (AVAILABILITY st) →
  t ∉ default [] (blocks (AVAILABILITY st) !! dateISO) →
  ∃ r1 st1 r2 st2,
    block_slot dateISO t st = Some (r1, st1)
    ∧ unblock_slot dateISO t st1 = Some (r2, st2)
    ∧ blocks (AVAILABILITY st2) = blocks (AVAILABILITY st).
Proof.
  intros Hd%proto_not_inherited Hkept Hfree. unfold block_slot, unblock_slot.
  rewrite blockSlotServer_block.
  destruct (availability_set_json (weekly (AVAILABILITY st))
              (blocked_next (blocks (AVAILABILITY st)) dateISO t) st)
    as (wk1 & _ & ->).
  eexists _, _.
  match goal with
  | |- context [blockSlotServer (AVAILABILITY ?s) _ _ false] =>
      destruct (blockSlotServer_unblock (AVAILABILITY s) dateISO t)
        as (m & -> & Hm);
      destruct (availability_set_json (weekly (AVAILABILITY s)) m s)
        as (wk2 & _ & ->)
  end.
  eexists _, _. split_and!; [done..|]. simpl. rewrite <- Hkept.
  apply kept_blocks_ext. intros d' t'.
  rewrite !elem_of_kept_blocks, Hm. simpl.
  rewrite elem_of_kept_blocks, elem_of_blocked_next.
  destruct (decide (d' = dateISO ∧ t' = t)) as [[-> ->]|Hne]; naive_solver.
Qed.

End Blocks.

(** ** The stored weekly template *)




Section Weekly.
Context `{Host}.











End Weekly.

(** ** The availability forms *)




Section Forms.
Context `{Host}.



(** X20. Blocking a day blocks every slot the calendar draws for it.  For
    settings that are natural numbers with a slot length above zero, the
    request [onBlockDate] sends for a date picked is answered 200; afterwards
    [isBlockedServer] answers true for that date at the hour and minute of
    every slot of [renderCalendar]'s grid, the times blocked on that date
    are times of such slots only, and on the other dates the non-empty
    times blocked before are blocked still (and nothing else). *)
Theorem block_date_blocks_every_slot st date (open close slotMin : nat) :
  date ≠ "" → date ∉ Object_prototype_names → 0 < slotMin →
  ∃ r st1,
    availability_set
      (onBlockDate (AVAILABILITY st) date open close slotMin) st
    = Some (r, st1)
    ∧ status r = 200
    ∧ (∀ hh mm, (hh, mm) ∈ day_slots open close slotMin →
                isBlockedServer (AVAILABILITY st1) date hh mm = true)
    ∧ (∀ t, t ∈ default [] (blocks (AVAILABILITY st1) !! date) →
            ∃ hh mm, (hh, mm) ∈ day_slots open close slotMin
                     ∧ t = slot_time hh mm)
    ∧ (∀ d' t', d' ≠ date →
         t' ∈ default [] (blocks (AVAILABILITY st1) !! d')
         ↔ d' ≠ "__proto__" ∧ t' ≠ ""
           ∧ t' ∈ default [] (blocks (AVAILABILITY st) !! d')).
Proof.
  intros _ Hd%proto_not_inherited _. unfold onBlockDate.
  set (arr := _ <$> day_slots _ _ _).
  destruct (availability_set_json (weekly (AVAILABILITY st))
              (<[date := arr]> (blocks (AVAILABILITY st))) st)
    as (wk & _ & ->).
  eexists _, _. split_and!; [done..| | |]; simpl.
  - intros hh mm Hin. unfold isBlockedServer. apply bool_decide_eq_true.
    simpl. rewrite elem_of_kept_blocks, lookup_insert_eq. simpl.
    split_and!; [done|apply slot_time_nonempty|].
    apply list_elem_of_fmap. by exists (hh, mm).
  - intros t. rewrite elem_of_kept_blocks, lookup_insert_eq. simpl.
    intros (_ & _ & ([hh mm] & -> & Hin)%list_elem_of_fmap). eauto.
  - intros d' t' Hne. by rewrite elem_of_kept_blocks, lookup_insert_ne.
Qed.

End Forms.

(** ** Escaping *)

Lemma chars_app (r s : string) :
  String.list_ascii_of_string (r +:+ s)
  = String.list_ascii_of_string r ++ String.list_ascii_of_string s.
Proof. induction r as [|x r IH]; simpl; [done|]. by rewrite IH. Qed.

Lemma elem_of_replaceAll c x r s :
  c ∈ String.list_ascii_of_string (replaceAll x r s) →
  c ∈ String.list_ascii_of_string r ∨ (c ∈ String.list_ascii_of_string s ∧ c ≠ x).
Proof.
  induction s as [|y s IH]; simpl; [by intros ?%elem_of_nil|].
  destruct (Ascii.eqb_spec y x) as [->|Hne].
  - rewrite chars_app, elem_of_app, elem_of_cons. naive_solver.
  - simpl. rewrite !elem_of_cons. naive_solver.
Qed.

Lemma replaceAll_absent x r s :
  x ∉ String.list_ascii_of_string s → replaceAll x r s = s.
Proof.
  induction s as [|y s IH]; simpl; [done|].
  rewrite not_elem_of_cons. intros [Hne Hs].
  destruct (Ascii.eqb_spec y x) as [->|_]; [done|]. by rewrite IH.
Qed.

Section Escape.
Context `{Host}.

(** X21. [escapeHtml] leaves no markup: its result holds none of the
    characters [<], [>], the double quote and the single quote; and a
    string that holds none of these and no [&] is returned as it is. *)
Theorem escapeHtml_leaves_no_markup (str : value) (out : string) :
  escapeHtml str = Some out →
  (∀ c, c ∈ String.list_ascii_of_string out → c ∉ markup)
  ∧ (∀ s, str = VStr s →
          (∀ c, c ∈ String.list_ascii_of_string s → c ∉ "&"%char :: markup) →
          out = s).
Proof.
  unfold escapeHtml. intros Hout.
  destruct (to_String _) as [s|] eqn:Hs; simplify_eq/=. split.
  - intros c Hc Hm.
    repeat (apply elem_of_replaceAll in Hc as [Hc|[Hc ?]]);
      unfold markup in Hm; simpl in Hc;
      repeat (apply elem_of_cons in Hc as [->|Hc]);
      try (by apply elem_of_nil in Hc);
      repeat (apply elem_of_cons in Hm as [?|Hm]);
      try (by apply elem_of_nil in Hm); congruence.
  - intros s' -> Hsafe. simpl in Hs. injection Hs as <-.
    assert (∀ c, c ∈ "&"%char :: markup → c ∉ String.list_ascii_of_string s') as Hno.
    { intros c Hc Hin. by apply (Hsafe c Hin). }
    unfold markup in Hno.
    rewrite (replaceAll_absent "&" _ s') by (apply Hno; set_solver).
    rewrite (replaceAll_absent "<" _ s') by (apply Hno; set_solver).
    rewrite (replaceAll_absent ">" _ s') by (apply Hno; set_solver).
    rewrite (replaceAll_absent "034" _ s') by (apply Hno; set_solver).
    by rewrite (replaceAll_absent "'" _ s') by (apply Hno; set_solver).
Qed.

End Escape.

(** ** The properties above on concrete requests *)

(** X3 on a booking of the instant already requested, written without
    milliseconds. *)
Lemma book_overrides_pending_witness :
  ∃ r st',
    @schedule_book Sample.host Ex.e1 (Ex.ask "b1" Ex.T1') More.asked
    = Some (r, st') ∧
    (((∃ x, x ∈ BOOKED More.asked
            ∧ @same_start Sample.host (appt_startISO x)
                (appt_startISO (Ex.made "b1" Ex.T1' "accepted")))
      ∧ status r = 409 ∧ st' = More.asked)
     ∨ ((∀ x, x ∈ BOOKED More.asked →
              ¬ @same_start Sample.host (appt_startISO x)
                  (appt_startISO (Ex.made "b1" Ex.T1' "accepted")))
        ∧ status r = 200
        ∧ BOOKED st' = BOOKED More.asked ++ [Ex.made "b1" Ex.T1' "accepted"]
        ∧ PENDING st'
          = filter (λ x, appt_startISO x
                         ≠ appt_startISO (Ex.made "b1" Ex.T1' "accepted"))
              (PENDING More.asked)
        ∧ AVAILABILITY st' = AVAILABILITY More.asked
        ∧ INVENTORY st' = INVENTORY More.asked
        ∧ GALLERY st' = GALLERY More.asked)).
Proof.
  apply (@book_overrides_pending Sample.host);
    [vm_compute; reflexivity|discriminate].
Defined.

(** X4 on a second request for the start the calendar shows as pending. *)
Lemma shown_taken_is_refused_witness :
  ∃ r, @schedule_request Sample.host Ex.e1 (Ex.ask "a2" Ex.T1) Ex.clash
       = Some (r, Ex.clash)
    ∧ status r = 409.
Proof.
  apply (@shown_taken_is_refused Sample.host Ex.e1 (Ex.ask "a2" Ex.T1) Ex.clash
           (Ex.made "a2" Ex.T1 "pending") (Ex.made "a1" Ex.T1 "pending")).
  - vm_compute. reflexivity.
  - discriminate.
  - eexists. vm_compute. reflexivity.
  - vm_compute. reflexivity.
Defined.

(** X5 on the first request a server receives. *)
Lemma request_then_reject_witness :
  @schedule_reject Sample.host (Ex.by_id "a1") More.asked
  = Some (ok [], initial).
Proof.
  apply (@request_then_reject Sample.host Ex.e1 (Ex.ask "a1" Ex.T1) initial
           (ok [("id", VStr "a1"); ("pendingCount", VNum (Fin 1))])
           More.asked (Ex.made "a1" Ex.T1 "pending")).
  - vm_compute. reflexivity.
  - vm_compute. reflexivity.
  - reflexivity.
  - discriminate.
  - intros x Hx. by apply elem_of_nil in Hx.
  - vm_compute. reflexivity.
Defined.

(** X6 on the first request a server receives. *)
Lemma request_then_accept_witness :
  @schedule_accept Sample.host (Ex.by_id "a1") More.asked
  = Some (ok [("id", VStr "a1")],
          set_BOOKED (BOOKED initial
                      ++ [with_status (Ex.made "a1" Ex.T1 "pending") "accepted"])
            initial).
Proof.
  apply (@request_then_accept Sample.host Ex.e1 (Ex.ask "a1" Ex.T1) initial
           (ok [("id", VStr "a1"); ("pendingCount", VNum (Fin 1))])
           More.asked (Ex.made "a1" Ex.T1 "pending")).
  - vm_compute. reflexivity.
  - vm_compute. reflexivity.
  - reflexivity.
  - discriminate.
  - intros x Hx. by apply elem_of_nil in Hx.
  - vm_compute. reflexivity.
Defined.

(** X9 on the first item a server receives. *)
Lemma upsert_stores_the_item_witness :
  ∃ it, ok [("item", item_json More.washer_item)] = ok [("item", item_json it)]
    ∧ it ∈ INVENTORY More.stocked
    ∧ (∀ x, x ∈ INVENTORY More.stocked → item_id x = item_id it → x = it)
    ∧ (∀ x, item_id x ≠ item_id it →
            x ∈ INVENTORY More.stocked ↔ x ∈ INVENTORY initial)
    ∧ length (INVENTORY More.stocked)
      = (if bool_decide (item_id it ∈ item_id <$> INVENTORY initial)
         then length (INVENTORY initial) else S (length (INVENTORY initial)))
    ∧ BOOKED More.stocked = BOOKED initial
    ∧ PENDING More.stocked = PENDING initial
    ∧ AVAILABILITY More.stocked = AVAILABILITY initial
    ∧ GALLERY More.stocked = GALLERY initial.
Proof.
  apply (@upsert_stores_the_item Sample.host Ex.e1 More.washer initial).
  - apply NoDup_nil_2.
  - vm_compute. reflexivity.
Defined.

(** X10 on that item, sent again. *)
Lemma upsert_twice_is_once_witness :
  @inventory_upsert Sample.host More.e2 More.washer More.stocked
  = Some (ok [("item", item_json More.washer_item)], More.stocked).
Proof.
  apply (@upsert_twice_is_once Sample.host Ex.e1 More.e2 More.washer initial);
    vm_compute; reflexivity.
Defined.

(** X11 on the deletion of that item. *)
Lemma inventory_delete_removes_witness :
  @inventory_delete Sample.host (Ex.by_id "w1") More.stocked
  = if bool_decide ("w1" ∈ item_id <$> INVENTORY More.stocked)
    then Some (ok [], set_INVENTORY
                        (filter (λ x, item_id x ≠ "w1") (INVENTORY More.stocked))
                        More.stocked)
    else Some (failure 404 "Not found", More.stocked).
Proof.
  apply (@inventory_delete_removes Sample.host).
  - vm_compute. reflexivity.
  - discriminate.
  - apply (bool_decide_unpack _). vm_compute. exact I.
Defined.

(** X12 on the first photo a server receives. *)
Lemma gallery_add_then_delete_witness :
  (∃ ph, ok [("photo", photo_json More.snapshot_photo)]
         = ok [("photo", photo_json ph)]
         ∧ photo_id ph = makeId Ex.e1
         ∧ GALLERY (set_GALLERY [More.snapshot_photo] initial)
           = ph :: GALLERY initial)
  ∧ @gallery_delete Sample.host (VObj [("id", VStr (makeId Ex.e1))])
      (set_GALLERY [More.snapshot_photo] initial)
    = Some (ok [], initial).
Proof.
  apply (@gallery_add_then_delete Sample.host Ex.e1 More.snapshot initial).
  - vm_compute. reflexivity.
  - reflexivity.
  - discriminate.
Defined.



(** X13 on the slot 10:00 of a day that has blocks already. *)
Lemma block_adds_the_slot_witness :
  ∃ r st1,
    @block_slot Sample.host "2026-03-02" "10:00" Ex.lunch_stored = Some (r, st1)
    ∧ status r = 200
    ∧ ∀ d' t',
        t' ∈ default [] (blocks (AVAILABILITY st1) !! d')
        ↔ d' ≠ "__proto__" ∧ t' ≠ ""
          ∧ (t' ∈ default [] (blocks (AVAILABILITY Ex.lunch_stored) !! d')
             ∨ (d' = "2026-03-02" ∧ t' = "10:00")).
Proof.
  apply (@block_adds_the_slot Sample.host Ex.lunch_stored).
  apply (bool_decide_unpack _). vm_compute. exact I.
Defined.

(** X14 on the slot 08:00 of that day, which is blocked. *)
Lemma unblock_removes_the_slot_witness :
  ∃ r st1,
    @unblock_slot Sample.host "2026-03-02" "08:00" Ex.lunch_stored
    = Some (r, st1)
    ∧ status r = 200
    ∧ ∀ d' t',
        t' ∈ default [] (blocks (AVAILABILITY st1) !! d')
        ↔ d' ≠ "__proto__" ∧ t' ≠ ""
          ∧ t' ∈ default [] (blocks (AVAILABILITY Ex.lunch_stored) !! d')
          ∧ ¬ (d' = "2026-03-02" ∧ t' = "08:00").
Proof.
  apply (@unblock_removes_the_slot Sample.host Ex.lunch_stored).
  apply (bool_decide_unpack _). vm_compute. exact I.
Defined.

(** X15 on the slot at ten of that day. *)
Lemma calendar_shows_the_toggle_witness :
  (∃ r st1, @block_slot Sample.host "2026-03-02" (slot_time 10 0) Ex.lunch_stored
            = Some (r, st1)
            ∧ isBlockedServer (AVAILABILITY st1) "2026-03-02" 10 0 = true)
  ∧ (∃ r st1, @unblock_slot Sample.host "2026-03-02" (slot_time 10 0)
                Ex.lunch_stored
              = Some (r, st1)
              ∧ isBlockedServer (AVAILABILITY st1) "2026-03-02" 10 0 = false).
Proof.
  apply (@calendar_shows_the_toggle Sample.host Ex.lunch_stored).
  apply (bool_decide_unpack _). vm_compute. exact I.
Defined.

(** X16 on the slot 10:00 of that day. *)
Lemma block_then_unblock_restores_witness :
  ∃ r1 st1 r2 st2,
    @block_slot Sample.host "2026-03-02" "10:00" Ex.lunch_stored = Some (r1, st1)
    ∧ @unblock_slot Sample.host "2026-03-02" "10:00" st1 = Some (r2, st2)
    ∧ blocks (AVAILABILITY st2) = blocks (AVAILABILITY Ex.lunch_stored).
Proof.
  apply (@block_then_unblock_restores Sample.host Ex.lunch_stored).
  - apply (bool_decide_unpack _). vm_compute. exact I.
  - vm_compute. reflexivity.
  - apply (bool_decide_unpack _). vm_compute. exact I.
Defined.


(** X20 with the settings the client starts with: open from 8 to 18,
    slots of 120 minutes. *)
Lemma block_date_blocks_every_slot_witness :
  ∃ r st1,
    @availability_set Sample.host
      (onBlockDate (AVAILABILITY Ex.lunch_stored) "2026-03-04" 8 18 120)
      Ex.lunch_stored
    = Some (r, st1)
    ∧ status r = 200
    ∧ (∀ hh mm, (hh, mm) ∈ day_slots 8 18 120 →
                isBlockedServer (AVAILABILITY st1) "2026-03-04" hh mm = true)
    ∧ (∀ t, t ∈ default [] (blocks (AVAILABILITY st1) !! "2026-03-04") →
            ∃ hh mm, (hh, mm) ∈ day_slots 8 18 120 ∧ t = slot_time hh mm)
    ∧ (∀ d' t', d' ≠ "2026-03-04" →
         t' ∈ default [] (blocks (AVAILABILITY st1) !! d')
         ↔ d' ≠ "__proto__" ∧ t' ≠ ""
           ∧ t' ∈ default [] (blocks (AVAILABILITY Ex.lunch_stored) !! d')).
Proof.
  apply (@block_date_blocks_every_slot Sample.host Ex.lunch_stored).
  - discriminate.
  - apply (bool_decide_unpack _). vm_compute. exact I.
  - lia.
Defined.

(** X21 on a caption with a tag, an ampersand and quotes. *)
Lemma escapeHtml_leaves_no_markup_witness :
  (∀ c, c ∈ String.list_ascii_of_string
              "&lt;b&gt;Tom &amp; &#039;Jerry&#039;&lt;/b&gt;" →
        c ∉ markup)
  ∧ (∀ s, VStr "<b>Tom & 'Jerry'</b>" = VStr s →
          (∀ c, c ∈ String.list_ascii_of_string s → c ∉ "&"%char :: markup) →
          "&lt;b&gt;Tom &amp; &#039;Jerry&#039;&lt;/b&gt;" = s).
Proof.
  apply (@escapeHtml_leaves_no_markup Sample.host).
  vm_compute. reflexivity.
Defined.

(** X22 on the first request a server receives. *)
Lemma requested_slot_is_shown_witness :
  ∃ a x, @normalizeAppt Sample.host Ex.e1 (Ex.ask "a1" Ex.T1) "pending" = Some a
         ∧ findAppointmentByStart
             (@run Sample.host [Request Ex.e1 (Ex.ask "a1" Ex.T1)] initial)
             (appt_startISO a) = Some x
         ∧ appt_startISO x = appt_startISO a ∧ appt_status x = "pending".
Proof.
  apply (@requested_slot_is_shown Sample.host Ex.e1 (Ex.ask "a1" Ex.T1) initial
           (ok [("id", VStr "a1"); ("pendingCount", VNum (Fin 1))])).
  - vm_compute. reflexivity.
  - reflexivity.
Defined.

(** X23 on a booking of the instant already requested, written without
    milliseconds: the calendar finds the booking under that text. *)
Lemma booked_slot_is_shown_witness :
  ∃ a x, @normalizeAppt Sample.host Ex.e1 (Ex.ask "b1" Ex.T1') "accepted"
         = Some a
         ∧ findAppointmentByStart Ex.clash (appt_startISO a) = Some x
         ∧ appt_startISO x = appt_startISO a ∧ appt_status x = "accepted".
Proof.
  apply (@booked_slot_is_shown Sample.host Ex.e1 (Ex.ask "b1" Ex.T1')
           (@run Sample.host [Request Ex.e1 (Ex.ask "a1" Ex.T1)] initial)
           (ok [("id", VStr "b1"); ("bookedCount", VNum (Fin 1))])).
  - vm_compute. reflexivity.
  - reflexivity.
Defined.

(** X24 on an item sent with an unknown status, an image path outside the
    upload directory and an upload. *)
Lemma stored_item_is_normal_witness :
  ∃ it, ok [("item", item_json
                       {| item_id := "w1"; item_title := "Washer";
                          item_model := ""; item_buyPrice := None;
                          item_rentPrice := None; item_status := "unavailable";
                          item_note := "";
                          item_imagePath := "/uploads/inv_1_1.png" |})]
        = ok [("item", item_json it)]
    ∧ it ∈ INVENTORY
             (set_INVENTORY
                [{| item_id := "w1"; item_title := "Washer";
                    item_model := ""; item_buyPrice := None;
                    item_rentPrice := None; item_status := "unavailable";
                    item_note := "";
                    item_imagePath := "/uploads/inv_1_1.png" |}] initial)
    ∧ (item_status it = "available" ∨ item_status it = "unavailable")
    ∧ String.prefix "/uploads/" (item_imagePath it) = true.
Proof.
  apply (@stored_item_is_normal Sample.host Ex.e1
           (VObj [("id", VStr "w1"); ("title", VStr "Washer");
                  ("status", VStr "sold"); ("imagePath", VStr "/etc/passwd");
                  ("image", VStr "data:image/png;base64,AAAAAAAAAAAA")])
           initial).
  - intros dataUrl filenameHint id prefix p Hp. vm_compute in Hp.
    injection Hp as <-. reflexivity.
  - vm_compute. reflexivity.
Defined.

Example More_states :
  More.asked = set_PENDING [Ex.made "a1" Ex.T1 "pending"] initial
  ∧ day_slots 8 18 120 = [(8, 0); (10, 0); (12, 0); (14, 0); (16, 0)]
  ∧ slot_time 8 0 = "08:00" ∧ slot_time 14 30 = "14:30"
  ∧ numSlots 8 18 45 = 14 ∧ numSlots 18 8 120 = 0.
Proof. vm_compute. repeat split. Qed.
